(** * Coverage server of DD-Satellite-Coms: a shallow embedding of
      [server/server.js] and the properties of its TLE parser, its
      file-backed TLE cache and its per-satellite link-budget pipeline.

    Conventions of the embedding.
    - A JavaScript number is a [number]: a finite value carried by a real, or
      one of [NaN], [+Infinity], [-Infinity].  Finite doubles are idealised as
      reals: rounding error of the arithmetic and the sign of zero are not
      represented.
    - A JavaScript string is a [string]; code units are the 8-bit characters
      of [ascii], so the white space of [trim] and [parseInt] is the white
      space below U+0100.
    - A JavaScript object is the list of its own properties in insertion
      order ([VObj]); an array is the list of its elements ([VArr]).
    - The file system, the clock and the HTTP client are explicit: a [World]
      is threaded through every effectful function, which also returns the
      events it emitted (console lines and HTTP requests).  Console lines
      are given without their leading pictograms.  Nothing else touches the
      cache files while a request runs, and a write to the cache directory
      succeeds.
    - [req.query] maps each parameter to one string.
    - [satellite.js] is a third-party dependency: its functions are the
      fields of the interface [SatelliteJs]; the conversions between strings
      and numbers of the language are the fields of [Conversions]. *)

From Stdlib Require Import List String Ascii ZArith Bool Lia.
From Stdlib Require Import Reals Lra Psatz.
From Stdlib Require Import DecimalString.
Import ListNotations.

Local Open Scope string_scope.
Local Open Scope list_scope.

(* ------------------------------------------------------------------ *)
(** ** JavaScript values *)

Set Warnings "-register-all".

Inductive number : Type :=
| Fin (x : R)
| PosInf
| NegInf
| NaN.

Inductive value : Type :=
| VUndefined
| VNull
| VBool (b : bool)
| VNum (n : number)
| VStr (s : string)
| VObj (props : list (string * value))
| VArr (items : list value).

Definition num_of_Z (z : Z) : number := Fin (IZR z).

(** Property read [o.k] on the own properties of an object. *)
Fixpoint lookup {A : Type} (k : string) (props : list (string * A)) : option A :=
  match props with
  | [] => None
  | (k', v) :: rest => if String.eqb k k' then Some v else lookup k rest
  end.

Definition get (k : string) (v : value) : value :=
  match v with
  | VObj props => match lookup k props with Some x => x | None => VUndefined end
  | _ => VUndefined
  end.

Definition keys (v : value) : list string :=
  match v with
  | VObj props => map fst props
  | _ => []
  end.

Definition has_own (k : string) (v : value) : bool :=
  match v with
  | VObj props => match lookup k props with Some _ => true | None => false end
  | _ => false
  end.

(* ------------------------------------------------------------------ *)
(** ** String built-ins used by the server *)

Module JsString.

(** White space and line terminators of ECMAScript among the code units
    below 256: TAB, LF, VT, FF, CR, SP and NBSP. *)
Definition isWhiteSpace (c : ascii) : bool :=
  let n := nat_of_ascii c in
  Nat.eqb n 9 || Nat.eqb n 10 || Nat.eqb n 11 || Nat.eqb n 12
  || Nat.eqb n 13 || Nat.eqb n 32 || Nat.eqb n 160.

Fixpoint trimStart (s : string) : string :=
  match s with
  | EmptyString => EmptyString
  | String c s' => if isWhiteSpace c then trimStart s' else s
  end.

Fixpoint trimEnd (s : string) : string :=
  match s with
  | EmptyString => EmptyString
  | String c s' =>
      match trimEnd s' with
      | EmptyString => if isWhiteSpace c then EmptyString else String c EmptyString
      | t => String c t
      end
  end.

Definition trim (s : string) : string := trimEnd (trimStart s).

(** [s.split(sep)] for a one-character separator: never empty. *)
Fixpoint split (sep : ascii) (s : string) : list string :=
  match s with
  | EmptyString => [EmptyString]
  | String c s' =>
      if Ascii.eqb c sep then EmptyString :: split sep s'
      else match split sep s' with
           | [] => [String c EmptyString]
           | hd :: tl => String c hd :: tl
           end
  end.

Definition startsWith (s p : string) : bool := String.prefix p s.

(** [s.substring(from, to)] with [from <= to]; both are clipped to the
    length of [s]. *)
Definition substring (s : string) (from to : nat) : string :=
  String.substring from (to - from) s.

(** Value of a character as a digit, for radix up to 36. *)
Definition digit_val (c : ascii) : option Z :=
  let n := Z.of_nat (nat_of_ascii c) in
  if ((48 <=? n) && (n <=? 57))%Z then Some (n - 48)%Z
  else if ((97 <=? n) && (n <=? 122))%Z then Some (n - 87)%Z
  else if ((65 <=? n) && (n <=? 90))%Z then Some (n - 55)%Z
  else None.

(** The longest prefix of radix-[r] digits, most significant first. *)
Fixpoint digits_prefix (r : Z) (s : string) : list Z :=
  match s with
  | EmptyString => []
  | String c s' =>
      match digit_val c with
      | Some d => if (d <? r)%Z then d :: digits_prefix r s' else []
      | None => []
      end
  end.

Definition digits_value (r : Z) (ds : list Z) : Z :=
  fold_left (fun acc d => (acc * r + d)%Z) ds 0%Z.

(** [parseInt(s)] with no radix argument; [None] is NaN. *)
Definition parseInt_Z (s : string) : option Z :=
  let s0 := trimStart s in
  let '(sign, s1) :=
    match s0 with
    | String c r =>
        if Ascii.eqb c "-"%char then (-1, r)%Z
        else if Ascii.eqb c "+"%char then (1%Z, r)
        else (1%Z, s0)
    | EmptyString => (1%Z, s0)
    end in
  let '(radix, s2) :=
    match s1 with
    | String c (String x r) =>
        if Ascii.eqb c "0"%char && (Ascii.eqb x "x"%char || Ascii.eqb x "X"%char)
        then (16%Z, r) else (10%Z, s1)
    | _ => (10%Z, s1)
    end in
  match digits_prefix radix s2 with
  | [] => None
  | ds => Some (sign * digits_value radix ds)%Z
  end.

Definition parseInt (s : string) : number :=
  match parseInt_Z s with
  | Some z => num_of_Z z
  | None => NaN
  end.

End JsString.

(* ------------------------------------------------------------------ *)
(** ** The catalog parser: [parseTLEs] *)

Definition LF : ascii := ascii_of_nat 10.

(** [lines[i]]: [None] is [undefined]. *)
Definition at_index (lines : list string) (i : nat) : option string :=
  nth_error lines i.

(** The record pushed by the loop: [{ noradId, line1, line2 }]. *)
Definition tle_record (line1 line2 : string) : value :=
  let noradId := JsString.parseInt (JsString.substring line1 2 7) in
  VObj [("noradId", VNum noradId); ("line1", VStr line1); ("line2", VStr line2)].

(** One iteration of the loop body at index [i]. *)
Definition parse_step (lines : list string) (i : nat) (sats : list value) : list value :=
  let name := match at_index lines i with
              | Some l => JsString.trim l
              | None => ""
              end in
  let line1 := at_index lines (i + 1) in
  let line2 := at_index lines (i + 2) in
  match line1, line2 with
  | Some l1, Some l2 =>
      if JsString.startsWith l1 "1 " && JsString.startsWith l2 "2 "
      then sats ++ [tle_record l1 l2]
      else sats
  | _, _ => sats
  end.

(** [for (let i = 0; i < lines.length - 1; i += 3)], with the number of
    iterations bounded by [fuel]. *)
Fixpoint parse_loop (fuel : nat) (lines : list string) (i : nat) (sats : list value)
  : list value :=
  match fuel with
  | O => sats
  | S fuel' =>
      if (Z.of_nat i <? Z.of_nat (List.length lines) - 1)%Z
      then parse_loop fuel' lines (i + 3) (parse_step lines i sats)
      else sats
  end.

Definition tle_lines (tleText : string) : list string :=
  JsString.split LF (JsString.trim tleText).

Definition parseTLEs (tleText : string) : list value :=
  let lines := tle_lines tleText in
  let sats := parse_loop (List.length lines) lines 0 [] in
  firstn 30 sats.

(* ------------------------------------------------------------------ *)
(** ** Number built-ins used by the server *)

Module JsNum.

Local Open Scope R_scope.

Definition Rltb (a b : R) : bool := if Rlt_dec a b then true else false.
Definition Rleb (a b : R) : bool := if Rle_dec a b then true else false.
Definition Reqb (a b : R) : bool := if Req_dec_T a b then true else false.

(** Sign of a real: [Lt], [Eq] or [Gt] as it compares with 0. *)
Definition Rsign (x : R) : comparison :=
  if Rltb x 0 then Lt else if Rltb 0 x then Gt else Eq.

Definition sgn (n : number) : comparison :=
  match n with
  | Fin x => Rsign x
  | PosInf => Gt
  | NegInf => Lt
  | NaN => Eq
  end.

Definition sign_mul (a b : comparison) : comparison :=
  match a, b with
  | Eq, _ | _, Eq => Eq
  | Gt, s | s, Gt => s
  | Lt, Lt => Gt
  end.

(** The infinity of a sign; the sign [Eq] stands for an undefined form. *)
Definition signed_inf (s : comparison) : number :=
  match s with
  | Gt => PosInf
  | Lt => NegInf
  | Eq => NaN
  end.

Definition isFinite (n : number) : bool :=
  match n with
  | Fin _ => true
  | _ => false
  end.

(** [a < b]: false as soon as one side is NaN. *)
Definition lt (a b : number) : bool :=
  match a, b with
  | NaN, _ | _, NaN => false
  | Fin x, Fin y => Rltb x y
  | NegInf, NegInf => false
  | NegInf, _ => true
  | _, PosInf => match a with PosInf => false | _ => true end
  | _, _ => false
  end.

Definition gt (a b : number) : bool := lt b a.

Definition neg (a : number) : number :=
  match a with
  | Fin x => Fin (- x)
  | PosInf => NegInf
  | NegInf => PosInf
  | NaN => NaN
  end.

Definition add (a b : number) : number :=
  match a, b with
  | NaN, _ | _, NaN => NaN
  | Fin x, Fin y => Fin (x + y)
  | PosInf, NegInf | NegInf, PosInf => NaN
  | PosInf, _ | _, PosInf => PosInf
  | NegInf, _ | _, NegInf => NegInf
  end.

Definition sub (a b : number) : number := add a (neg b).

Definition mul (a b : number) : number :=
  match a, b with
  | NaN, _ | _, NaN => NaN
  | Fin x, Fin y => Fin (x * y)
  | _, _ => signed_inf (sign_mul (sgn a) (sgn b))
  end.

(** Division; a zero divisor is +0. *)
Definition div (a b : number) : number :=
  match a, b with
  | NaN, _ | _, NaN => NaN
  | Fin x, Fin y => if Reqb y 0 then signed_inf (Rsign x) else Fin (x / y)
  | Fin _, _ => Fin 0
  | _, Fin y => signed_inf (sign_mul (sgn a) (if Reqb y 0 then Gt else Rsign y))
  | _, _ => NaN
  end.

(** [Math.round]: the nearest integer, halves towards +Infinity. *)
Definition round (a : number) : number :=
  match a with
  | Fin x => Fin (IZR (Int_part (x + / 2)))
  | _ => a
  end.

(** [+(a).toFixed(1)]: one decimal, halves away from zero; values of
    magnitude 1e21 or more and the non-finite ones print as they are. *)
Definition toFixed1 (a : number) : number :=
  match a with
  | Fin x =>
      if Rltb (Rabs x) (10 ^ 21)
      then let n := IZR (Int_part (Rabs x * 10 + / 2)) in
           Fin (if Rltb x 0 then - (n / 10) else n / 10)
      else a
  | _ => a
  end.

Definition PI : number := Fin Rtrigo1.PI.

Definition cos (a : number) : number :=
  match a with
  | Fin x => Fin (Rtrigo_def.cos x)
  | _ => NaN
  end.

Definition acos (a : number) : number :=
  match a with
  | Fin x => if Rleb (-1) x && Rleb x 1 then Fin (Ratan.acos x) else NaN
  | _ => NaN
  end.

Definition log10 (a : number) : number :=
  match a with
  | Fin x => if Rltb 0 x then Fin (ln x / ln 10)
             else if Rltb x 0 then NaN else NegInf
  | PosInf => PosInf
  | _ => NaN
  end.

End JsNum.

Declare Scope js_scope.
Delimit Scope js_scope with js.
Infix "+" := JsNum.add : js_scope.
Infix "-" := JsNum.sub : js_scope.
Infix "*" := JsNum.mul : js_scope.
Infix "/" := JsNum.div : js_scope.
Infix "<" := JsNum.lt : js_scope.
Infix ">" := JsNum.gt : js_scope.

(** Truthiness of a value ([!v], [a || b], [if (v)]). *)
Definition truthy (v : value) : bool :=
  match v with
  | VUndefined | VNull => false
  | VBool b => b
  | VNum (Fin x) => negb (JsNum.Reqb x 0)
  | VNum NaN => false
  | VNum _ => true
  | VStr s => negb (String.eqb s "")
  | VObj _ | VArr _ => true
  end.

(* ------------------------------------------------------------------ *)
(** ** Effects: file system, clock, HTTP client, console *)

(** A thrown [Error]; only its [message] is ever read. *)
Inductive exn : Type :=
| JsError (message : string).

Definition message (e : exn) : string :=
  match e with JsError m => m end.

Record File : Type := mkFile { content : string; mtimeMs : Z }.

(** What [axios.get] settles to: a rejection (timeout, network error,
    non-2xx status) or a response with its body. *)
Inductive HttpResult : Type :=
| HttpError (msg : string)
| HttpOk (data : string).

Inductive Event : Type :=
| ConsoleLog (text : string)
| ConsoleError (text : string)
| HttpGet (url : string).

(** [clock n] is what the [n]-th reading of the system clock returns, in
    milliseconds; [ticks] counts the readings made so far. *)
Record World : Type := mkWorld {
  files : list (string * File);
  clock : nat -> Z;
  ticks : nat;
  network : string -> HttpResult
}.

Definition M (A : Type) : Type := World -> (exn + A) * World * list Event.

Definition ret {A} (a : A) : M A := fun w => (inr a, w, []).

Definition throw {A} (e : exn) : M A := fun w => (inl e, w, []).

Definition bind {A B} (m : M A) (k : A -> M B) : M B :=
  fun w =>
    match m w with
    | (inl e, w1, ev1) => (inl e, w1, ev1)
    | (inr a, w1, ev1) =>
        let '(r, w2, ev2) := k a w1 in (r, w2, ev1 ++ ev2)
    end.

(** [try { m } catch (err) { h err }] *)
Definition try_catch {A} (m : M A) (h : exn -> M A) : M A :=
  fun w =>
    match m w with
    | (inl e, w1, ev1) =>
        let '(r, w2, ev2) := h e w1 in (r, w2, ev1 ++ ev2)
    | (inr a, w1, ev1) => (inr a, w1, ev1)
    end.

Definition lift {A} (r : exn + A) : M A := fun w => (r, w, []).

Definition emit (e : Event) : M unit := fun w => (inr tt, w, [e]).

Notation "x <- m ;; k" := (bind m (fun x => k))
  (at level 61, m at next level, right associativity).
Notation "m ;;; k" := (bind m (fun _ => k))
  (at level 61, right associativity).

Definition console_log (text : string) : M unit := emit (ConsoleLog text).
Definition console_error (text : string) : M unit := emit (ConsoleError text).

(** [Date.now()] and [new Date()]: one reading of the clock. *)
Definition Date_now : M Z :=
  fun w => (inr (clock w (ticks w)),
            mkWorld (files w) (clock w) (S (ticks w)) (network w), []).

Module Fs.

Definition existsSync (path : string) : M bool :=
  fun w => (inr (match lookup path (files w) with Some _ => true | None => false end),
            w, []).

(** [fs.statSync(path).mtimeMs] *)
Definition statSync_mtimeMs (path : string) : M Z :=
  fun w => match lookup path (files w) with
           | Some f => (inr (mtimeMs f), w, [])
           | None => (inl (JsError ("ENOENT: no such file or directory, stat " ++ path)), w, [])
           end.

Definition readFileSync (path : string) : M string :=
  fun w => match lookup path (files w) with
           | Some f => (inr (content f), w, [])
           | None => (inl (JsError ("ENOENT: no such file or directory, open " ++ path)), w, [])
           end.

Fixpoint put (path : string) (f : File) (fs : list (string * File)) : list (string * File) :=
  match fs with
  | [] => [(path, f)]
  | (p, g) :: rest => if String.eqb path p then (p, f) :: rest else (p, g) :: put path f rest
  end.

(** The file is created or replaced; its modification time is the
    system clock at the write. *)
Definition writeFileSync (path data : string) : M unit :=
  fun w => (inr tt,
            mkWorld (put path (mkFile data (clock w (ticks w))) (files w))
                    (clock w) (S (ticks w)) (network w),
            []).

End Fs.

(** [await axios.get(url, ...)]: the request is recorded, a rejection is
    thrown. *)
Definition axios_get (url : string) : M string :=
  fun w => match network w url with
           | HttpError msg => (inl (JsError msg), w, [HttpGet url])
           | HttpOk data => (inr data, w, [HttpGet url])
           end.

(* ------------------------------------------------------------------ *)
(** ** The TLE cache: [isStale] and [getConstellationTLEs] *)

Definition CACHE_DIR : string := "tle-cache".
Definition MIN_REFRESH_MS : Z := 2 * 60 * 60 * 1000.

Definition isStale (filePath : string) : M bool :=
  found <- Fs.existsSync filePath ;;
  if negb found then ret true
  else
    mtime <- Fs.statSync_mtimeMs filePath ;;
    now <- Date_now ;;
    let ageMs := (now - mtime)%Z in
    ret (ageMs >? MIN_REFRESH_MS)%Z.

(** The own properties of the [groups] object literal. *)
Definition groups : list (string * string) :=
  [("iridium", "iridium"); ("starlink", "starlink"); ("kuiper", "kuiper")].

(** Properties every object literal inherits from [Object.prototype]:
    [groups[k]] is then a function or an object, truthy and with no
    [toUpperCase] method. *)
Definition object_prototype_keys : list string :=
  ["constructor"; "hasOwnProperty"; "isPrototypeOf"; "propertyIsEnumerable";
   "toLocaleString"; "toString"; "valueOf"; "__proto__";
   "__defineGetter__"; "__defineSetter__"; "__lookupGetter__"; "__lookupSetter__"].

Definition inherited (k : string) : bool :=
  existsb (String.eqb k) object_prototype_keys.

Definition toUpperCase_char (c : ascii) : ascii :=
  let n := nat_of_ascii c in
  if (97 <=? n)%nat && (n <=? 122)%nat then ascii_of_nat (n - 32) else c.

(** [s.toUpperCase()] on unaccented letters. *)
Fixpoint toUpperCase (s : string) : string :=
  match s with
  | EmptyString => EmptyString
  | String c s' => String (toUpperCase_char c) (toUpperCase s')
  end.

Definition cachePathOf (group : string) : string :=
  CACHE_DIR ++ "/" ++ group ++ ".tle".

Definition urlOf (group : string) : string :=
  "https://celestrak.org/NORAD/elements/gp.php?GROUP=" ++ toUpperCase group ++ "&FORMAT=TLE".

Definition no_cache_available (group : string) : exn :=
  JsError ("Failed to fetch " ++ group ++ " and no cache available").

Definition getConstellationTLEs (constellation : string) : M (list value) :=
  match lookup constellation groups with
  | None =>
      if inherited constellation
      then throw (JsError "group.toUpperCase is not a function")
      else throw (JsError ("Unknown constellation: " ++ constellation))
  | Some group =>
      let cachePath := cachePathOf group in
      let url := urlOf group in
      stale <- isStale cachePath ;;
      if negb stale then
        console_log ("Using cached " ++ group) ;;;
        tleData <- Fs.readFileSync cachePath ;;
        ret (parseTLEs tleData)
      else
        try_catch
          (console_log ("Fetching fresh " ++ group ++ " from CelesTrak") ;;;
           data <- axios_get url ;;
           (if String.eqb data "" || String.eqb (JsString.trim data) ""
            then throw (JsError "Empty TLE response")
            else ret tt) ;;;
           Fs.writeFileSync cachePath data ;;;
           console_log ("Cached " ++ group ++ " TLEs") ;;;
           ret (parseTLEs data))
          (fun err =>
             console_error ("Fetch failed for " ++ group ++ ": " ++ message err) ;;;
             found <- Fs.existsSync cachePath ;;
             if found then
               console_log ("Falling back to stale cache for " ++ group) ;;;
               tleData <- Fs.readFileSync cachePath ;;
               ret (parseTLEs tleData)
             else throw (no_cache_available group))
  end.

(* ------------------------------------------------------------------ *)
(** ** The dependencies of the request handler *)

(** What [satellite.propagate] returns: nothing, or an object whose
    [position] may be missing ([false] or [undefined]). *)
Inductive PositionAndVelocity (Eci : Type) : Type :=
| PvNothing
| PvObject (position : option Eci).
Arguments PvNothing {Eci}.
Arguments PvObject {Eci} position.

Record Geodetic : Type := mkGeodetic {
  longitude : number; latitude : number; height : number }.

Record LookAngles : Type := mkLookAngles {
  azimuth : number; elevation : number; rangeSat : number }.

(** The functions of [satellite.js] the handler calls; each may throw. *)
Class SatelliteJs : Type := {
  Satrec : Type;
  Eci : Type;
  Ecf : Type;
  twoline2satrec : value -> value -> exn + Satrec;
  propagate : Satrec -> Z -> exn + PositionAndVelocity Eci;
  gstime : Z -> exn + number;
  eciToGeodetic : Eci -> number -> exn + Geodetic;
  degreesLat : number -> exn + number;
  degreesLong : number -> exn + number;
  degreesToRadians : value -> exn + number;
  eciToEcf : Eci -> number -> exn + Ecf;
  ecfToLookAngles : Geodetic -> Ecf -> exn + LookAngles;
  radiansToDegrees : number -> exn + number
}.

(** The conversions between strings and numbers of the language. *)
Class Conversions : Type := {
  StringToNumber : string -> number;
  NumberToString : number -> string
}.

Definition string_of_nat (n : nat) : string :=
  NilEmpty.string_of_uint (Nat.to_uint n).

Record Request : Type := mkRequest {
  params_constellation : string;
  query : list (string * string)
}.

Record Response : Type := mkResponse { status : Z; body : value }.

(* ------------------------------------------------------------------ *)
(** ** The request handler [GET /api/:constellation/coverage] *)

Section Handler.

Context {sat_js : SatelliteJs} {conv : Conversions}.

(** [Number(v)] and the coercion of an arithmetic operand. *)
Definition to_number (v : value) : number :=
  match v with
  | VNum n => n
  | VStr s => StringToNumber s
  | VBool true => Fin 1
  | VBool false | VNull => Fin 0
  | VUndefined | VObj _ | VArr _ => NaN
  end.

(** The conversion of a template literal for the values it meets here. *)
Definition to_string (v : value) : string :=
  match v with
  | VStr s => s
  | VNum n => NumberToString n
  | VBool true => "true"
  | VBool false => "false"
  | VNull => "null"
  | VUndefined => "undefined"
  | VObj _ => "[object Object]"
  | VArr _ => ""
  end.

(** [const { k = dflt } = req.query] *)
Definition query_param (q : list (string * string)) (k : string) (dflt : number) : value :=
  match lookup k q with
  | Some s => VStr s
  | None => VNum dflt
  end.

Definition EARTH_RADIUS : number := Fin 6371.
Definition MIN_ELEVATION_DEG : number := Fin 10.
Definition elevRad : number := (MIN_ELEVATION_DEG * JsNum.PI / Fin 180)%js.

Definition centralAngleOf (h : number) : number :=
  (JsNum.acos (EARTH_RADIUS * JsNum.cos elevRad / (EARTH_RADIUS + h)) - elevRad)%js.

Definition coverageRadiusKmOf (h : number) : number :=
  (EARTH_RADIUS * centralAngleOf h)%js.

(** [{ iridium: 1.6, starlink: 12.0, kuiper: 12.0 }[constellation] || 1.6]
    as [Math.log10] reads it: an inherited property is not a number. *)
Definition freq_table : list (string * number) :=
  [("iridium", Fin 1.6); ("starlink", Fin 12.0); ("kuiper", Fin 12.0)].

Definition freqGHzOf (constellation : string) : number :=
  match lookup constellation freq_table with
  | Some f => f
  | None => if inherited constellation then NaN else Fin 1.6
  end.

Definition pathLossDbOf (constellation : string) (rangeKm : number) : number :=
  (Fin 32.44 + Fin 20 * JsNum.log10 rangeKm
   + Fin 20 * JsNum.log10 (freqGHzOf constellation))%js.

(** The entry pushed for a satellite whose range is finite and positive. *)
Definition entry_in_range (constellation : string) (noradId : value)
    (satPos : list (string * value)) (elevation rangeKm coverageRadiusKm : number) : value :=
  let pathLossDb := pathLossDbOf constellation rangeKm in
  VObj ([("noradId", noradId)] ++ satPos ++
        [("elevation", VNum (JsNum.toFixed1 elevation));
         ("rangeKm", VNum (JsNum.round rangeKm));
         ("pathLossDb", VNum (JsNum.round pathLossDb));
         ("coverageRadiusKm", VNum coverageRadiusKm);
         ("available", VBool ((elevation > Fin 10)%js && (pathLossDb < Fin 160)%js))]).

(** The entry pushed otherwise. *)
Definition entry_degenerate (noradId : value) (satPos : list (string * value))
    (elevation coverageRadiusKm : number) : value :=
  VObj ([("noradId", noradId)] ++ satPos ++
        [("elevation", VNum (JsNum.toFixed1 elevation));
         ("rangeKm", VNull);
         ("pathLossDb", VNull);
         ("coverageRadiusKm", VNum coverageRadiusKm);
         ("available", VBool false)]).

Definition visible_count (results : list value) : nat :=
  List.length (filter (fun r => truthy (get "available" r)) results).

(** The body of the inner [try]; it returns the [results] array as the
    iteration leaves it. *)
Definition satellite_body (constellation : string) (lat lng alt : value)
    (results : list value) (sat : value) : M (list value) :=
  let noradId := get "noradId" sat in
  let line1 := get "line1" sat in
  let line2 := get "line2" sat in
  satrec <- lift (twoline2satrec line1 line2) ;;
  now <- Date_now ;;
  pv <- lift (propagate satrec now) ;;
  match pv with
  | PvNothing | PvObject None => ret results
  | PvObject (Some position) =>
      gmst <- lift (gstime now) ;;
      geo <- lift (eciToGeodetic position gmst) ;;
      let h := height geo in
      let coverageRadiusKm := coverageRadiusKmOf h in
      satLat <- lift (degreesLat (latitude geo)) ;;
      satLng <- lift (degreesLong (longitude geo)) ;;
      let satPos := [("lat", VNum satLat); ("lng", VNum satLng);
                     ("altitudeKm", VNum (height geo))] in
      obsLng <- lift (degreesToRadians lng) ;;
      obsLat <- lift (degreesToRadians lat) ;;
      let observerGd := mkGeodetic obsLng obsLat (to_number alt / Fin 1000)%js in
      satEcf <- lift (eciToEcf position gmst) ;;
      lookAngles <- lift (ecfToLookAngles observerGd satEcf) ;;
      elevationDeg <- lift (radiansToDegrees (elevation lookAngles)) ;;
      let rangeKm := rangeSat lookAngles in
      if JsNum.isFinite rangeKm && (rangeKm > Fin 0)%js then
        let results' :=
          results ++ [entry_in_range constellation noradId satPos
                                     elevationDeg rangeKm coverageRadiusKm] in
        (if Nat.eqb (List.length results' mod 5) 0
         then console_log (constellation ++ ": "
                           ++ string_of_nat (visible_count results') ++ "/"
                           ++ string_of_nat (List.length results') ++ " visible")
         else ret tt) ;;;
        ret results'
      else
        ret (results ++ [entry_degenerate noradId satPos elevationDeg coverageRadiusKm])
  end.

(** One iteration of [for (const sat of tleList)]: the inner [try] and
    its [catch], which logs and goes on. *)
Definition process_satellite (constellation : string) (lat lng alt : value)
    (results : list value) (sat : value) : M (list value) :=
  try_catch
    (satellite_body constellation lat lng alt results sat)
    (fun err =>
       console_error ("NORAD " ++ to_string (get "noradId" sat) ++ ": " ++ message err) ;;;
       ret results).

Fixpoint process_all (constellation : string) (lat lng alt : value)
    (tleList : list value) (results : list value) : M (list value) :=
  match tleList with
  | [] => ret results
  | sat :: rest =>
      results' <- process_satellite constellation lat lng alt results sat ;;
      process_all constellation lat lng alt rest results'
  end.

Definition coverage_handler (req : Request) : M Response :=
  let lat := query_param (query req) "lat" (Fin 45.42) in
  let lng := query_param (query req) "lng" (Fin (-75.7)) in
  let alt := query_param (query req) "alt" (Fin 100) in
  let constellation := params_constellation req in
  try_catch
    (tleList <- getConstellationTLEs constellation ;;
     results <- process_all constellation lat lng alt tleList [] ;;
     console_log ("Returning " ++ string_of_nat (List.length results) ++ " satellites") ;;;
     ret (mkResponse 200
            (VObj [("observer", VObj [("lat", VNum (to_number lat));
                                      ("lng", VNum (to_number lng));
                                      ("alt", VStr (to_string alt ++ "m"))]);
                   ("constellation", VStr constellation);
                   ("satellites", VArr results)])))
    (fun error =>
       ret (mkResponse 500 (VObj [("error", VStr (message error))]))).

End Handler.

(* ================================================================== *)
(** * Definitions used to state the properties *)

(** ** The parser read over whole triplets *)

(** The two prefix tests of the loop body. *)
Definition prefixes_ok (l1 l2 : string) : bool :=
  JsString.startsWith l1 "1 " && JsString.startsWith l2 "2 ".

(** The loop read as a recursion over whole triplets (name, line1, line2). *)
Fixpoint accept_triplets (lines : list string) : list value :=
  match lines with
  | _ :: l1 :: l2 :: rest =>
      (if prefixes_ok l1 l2 then [tle_record l1 l2] else []) ++ accept_triplets rest
  | _ => []
  end.

(** What the [k]-th triplet of the catalog contributes: one record when
    both element lines are present and carry their prefixes. *)
Definition triplet_records (lines : list string) (k : nat) : list value :=
  match at_index lines (3 * k + 1), at_index lines (3 * k + 2) with
  | Some l1, Some l2 => if prefixes_ok l1 l2 then [tle_record l1 l2] else []
  | _, _ => []
  end.

(** The accepted records in catalog order, following the words of the
    specification: triplets are visited in the order of the text. *)
Definition catalog_order_records (lines : list string) : list value :=
  flat_map (triplet_records lines) (seq 0 (List.length lines)).

(** The parser applied to the lines of a text. *)
Definition parse_lines (lines : list string) : list value :=
  firstn 30 (parse_loop (List.length lines) lines 0 []).

(** ** Decimal fields *)

(** The characters "0" to "9". *)
Definition is_digit (c : ascii) : bool :=
  let n := Z.of_nat (nat_of_ascii c) in ((48 <=? n) && (n <=? 57))%Z.

Fixpoint all_digits (s : string) : bool :=
  match s with
  | EmptyString => true
  | String c s' => is_digit c && all_digits s'
  end.

(** The digits of a string of decimal digits, most significant first. *)
Fixpoint decimal_digits (s : string) : list Z :=
  match s with
  | EmptyString => []
  | String c s' => (Z.of_nat (nat_of_ascii c) - 48)%Z :: decimal_digits s'
  end.

(** The number a string of decimal digits denotes. *)
Definition decimal_value (s : string) : Z :=
  fold_left (fun acc d => (acc * 10 + d)%Z) (decimal_digits s) 0%Z.

(** [n] spaces. *)
Fixpoint blanks (n : nat) : string :=
  match n with
  | O => EmptyString
  | S n' => String " "%char (blanks n')
  end.

(** ** Runs of effectful functions *)

(** What a run returns, the world it leaves and the events it emitted. *)
Definition result_of {A} (out : (exn + A) * World * list Event) : exn + A := fst (fst out).

Definition world_of {A} (out : (exn + A) * World * list Event) : World := snd (fst out).

Definition events_of {A} (out : (exn + A) * World * list Event) : list Event := snd out.

(** The URLs requested over HTTP among some events. *)
Fixpoint http_requests (evs : list Event) : list string :=
  match evs with
  | [] => []
  | HttpGet url :: rest => url :: http_requests rest
  | _ :: rest => http_requests rest
  end.

(** The world after one reading of the clock. *)
Definition tick (w : World) : World :=
  mkWorld (files w) (clock w) (S (ticks w)) (network w).

(** A response body that the cache refuses: empty or blank. *)
Definition blank_body (data : string) : bool :=
  String.eqb data "" || String.eqb (JsString.trim data) "".

(** The fetch fails: the request is rejected or its body is blank. *)
Definition fetch_fails (r : HttpResult) : bool :=
  match r with
  | HttpError _ => true
  | HttpOk data => blank_body data
  end.

(** The world in which the fetch is attempted: the one [isStale] leaves. *)
Definition world_at_fetch (group : string) (w : World) : World :=
  match lookup (cachePathOf group) (files w) with
  | None => w
  | Some _ => tick w
  end.

(** What [isStale] answers for the cache file of the group in [w]. *)
Definition stale (group : string) (w : World) : bool :=
  match lookup (cachePathOf group) (files w) with
  | None => true
  | Some f => (clock w (ticks w) - mtimeMs f >? MIN_REFRESH_MS)%Z
  end.

(** The world after [data] is written to the cache file of the group. *)
Definition written (group : string) (w : World) (data : string) : World :=
  mkWorld (Fs.put (cachePathOf group) (mkFile data (clock w (ticks w))) (files w))
          (clock w) (S (ticks w)) (network w).

(** ** The loop body seen as an observation followed by a push *)

(** What the calls to [satellite.js] yield for one element set when none
    of them throws and the propagation gives a position. *)
Record Observation : Type := mkObservation {
  obs_lat : number;
  obs_lng : number;
  obs_height : number;
  obs_elevation : number;
  obs_range : number
}.

Section Observing.

Context {sat_js : SatelliteJs} {conv : Conversions}.

(** The library calls of the loop body, in the order of the source. *)
Definition observe (lat lng alt : value) (sat : value) : M (option Observation) :=
  satrec <- lift (twoline2satrec (get "line1" sat) (get "line2" sat)) ;;
  now <- Date_now ;;
  pv <- lift (propagate satrec now) ;;
  match pv with
  | PvNothing | PvObject None => ret None
  | PvObject (Some position) =>
      gmst <- lift (gstime now) ;;
      geo <- lift (eciToGeodetic position gmst) ;;
      satLat <- lift (degreesLat (latitude geo)) ;;
      satLng <- lift (degreesLong (longitude geo)) ;;
      obsLng <- lift (degreesToRadians lng) ;;
      obsLat <- lift (degreesToRadians lat) ;;
      let observerGd := mkGeodetic obsLng obsLat (to_number alt / Fin 1000)%js in
      satEcf <- lift (eciToEcf position gmst) ;;
      lookAngles <- lift (ecfToLookAngles observerGd satEcf) ;;
      elevationDeg <- lift (radiansToDegrees (elevation lookAngles)) ;;
      ret (Some (mkObservation satLat satLng (height geo) elevationDeg
                               (rangeSat lookAngles)))
  end.

(** The test [Number.isFinite(rangeKm) && rangeKm > 0]. *)
Definition in_range (rangeKm : number) : bool :=
  JsNum.isFinite rangeKm && (rangeKm > Fin 0)%js.

(** The properties of [satPos]. *)
Definition satPos_of (o : Observation) : list (string * value) :=
  [("lat", VNum (obs_lat o)); ("lng", VNum (obs_lng o));
   ("altitudeKm", VNum (obs_height o))].

(** The entry the loop body pushes for an observation. *)
Definition entry_of (constellation : string) (noradId : value) (o : Observation) : value :=
  if in_range (obs_range o)
  then entry_in_range constellation noradId (satPos_of o) (obs_elevation o)
                      (obs_range o) (coverageRadiusKmOf (obs_height o))
  else entry_degenerate noradId (satPos_of o) (obs_elevation o)
                        (coverageRadiusKmOf (obs_height o)).

(** The console line printed after a push, if any. *)
Definition progress_events (constellation : string) (results' : list value)
    (o : Observation) : list Event :=
  if in_range (obs_range o) && Nat.eqb (List.length results' mod 5) 0
  then [ConsoleLog (constellation ++ ": "
                    ++ string_of_nat (visible_count results') ++ "/"
                    ++ string_of_nat (List.length results') ++ " visible")]
  else [].

(** How an iteration ends: with nothing pushed or with one entry. *)
Inductive iteration_outcome : Type :=
| Omitted
| Pushed (o : Observation).

(** An iteration pushes an entry exactly when every library call succeeds
    and the propagation gives a position. *)
Definition outcome_of (lat lng alt sat : value) (w : World) : iteration_outcome :=
  match observe lat lng alt sat w with
  | (inr (Some o), _, _) => Pushed o
  | _ => Omitted
  end.

End Observing.

(** ** Responses *)

(** The body sent with status 200 for the entries [results]. *)
Definition report {conv : Conversions} (req : Request) (results : list value) : Response :=
  let q := query req in
  mkResponse 200
    (VObj [("observer",
            VObj [("lat", VNum (to_number (query_param q "lat" (Fin 45.42))));
                  ("lng", VNum (to_number (query_param q "lng" (Fin (-75.7)))));
                  ("alt", VStr (to_string (query_param q "alt" (Fin 100)) ++ "m"))]);
           ("constellation", VStr (params_constellation req));
           ("satellites", VArr results)]).

(** The body sent with status 500 for a caught error. *)
Definition failure (e : exn) : Response :=
  mkResponse 500 (VObj [("error", VStr (message e))]).

(** The [satellites] array of a response; empty when there is none. *)
Definition satellites_of (resp : Response) : list value :=
  match get "satellites" (body resp) with
  | VArr items => items
  | _ => []
  end.

(** The query without its parameter [k]. *)
Definition without (k : string) (q : list (string * string)) : list (string * string) :=
  filter (fun kv => negb (String.eqb (fst kv) k)) q.

(** ** The link budget and the coverage radius on reals *)

Section RealSide.

Local Open Scope R_scope.

(** The logarithm in base 10 of a positive real. *)
Definition log10R (x : R) : R := ln x / ln 10.

(** Whether a range is degenerate: not finite, or not positive. *)
Definition degenerate (rangeKm : number) : Prop :=
  match rangeKm with
  | Fin r => r <= 0
  | _ => True
  end.

(** The coverage radius as a formula on reals, for a satellite at or
    above the surface. *)
Definition coverage_radius_km (h : R) : R :=
  6371 * (Ratan.acos (6371 * Rtrigo_def.cos (10 * Rtrigo1.PI / 180) / (6371 + h))
          - 10 * Rtrigo1.PI / 180).

End RealSide.

(** The downlink frequency of a constellation, in GHz. *)
Definition frequency_GHz (constellation : string) : R :=
  if String.eqb constellation "iridium" then 1.6%R
  else if String.eqb constellation "starlink" then 12.0%R
  else if String.eqb constellation "kuiper" then 12.0%R
  else 1.6%R.

(** The free-space path loss in dB at [rangeKm] km. *)
Definition path_loss_dB (constellation : string) (rangeKm : R) : R :=
  (32.44 + 20 * log10R rangeKm + 20 * log10R (frequency_GHz constellation))%R.

(** ** A sample catalog, sample worlds and a scripted stand-in for the library *)

(** A line feed. *)
Definition NL : string := String LF "".

Definition sample_line1 : string :=
  "1 44713U 19074A   24001.50000000  .00001000  00000-0  85000-4 0  9990".

Definition sample_line2 : string :=
  "2 44713  53.0540 120.0000 0001400  90.0000 270.0000 15.06400000230000".

Definition sample_catalog : string :=
  "STARLINK-1007" ++ NL ++ sample_line1 ++ NL ++ sample_line2 ++ NL.

(** The same catalog after a triplet whose element lines are malformed. *)
Definition sample_catalog_with_junk : string :=
  "DEBRIS" ++ NL ++ "x 00000" ++ NL ++ "2 00000" ++ NL ++ sample_catalog.

(** [n] copies of a text, one after the other. *)
Fixpoint copies (n : nat) (s : string) : string :=
  match n with
  | O => EmptyString
  | S n' => s ++ copies n' s
  end.

(** The record the parser emits for the sample catalog. *)
Definition sample_record : value :=
  VObj [("noradId", VNum (num_of_Z 44713));
        ("line1", VStr sample_line1); ("line2", VStr sample_line2)].

(** Sample worlds: a frozen clock and one answer for every URL. *)
Definition sample_world (fs : list (string * File)) (now : Z) (net : HttpResult) : World :=
  mkWorld fs (fun _ => now) 0 (fun _ => net).

(** A cache directory holding the sample catalog, last written at [mtime]. *)
Definition sample_cache_file (mtime : Z) : list (string * File) :=
  [("tle-cache/starlink.tle", mkFile sample_catalog mtime)].

(** A world whose cache file is 4 seconds old and whose network is down. *)
Definition fresh_world : World :=
  sample_world (sample_cache_file 1000) 5000 (HttpError "timeout of 10000ms exceeded").

(** What the stand-in does for an element set, chosen by its first line. *)
Inductive Script : Type :=
| Throws (msg : string)
| NoPosition
| Seen (o : Observation).

Definition scripted_satellite_js (script : value -> Script) : SatelliteJs := {|
  Satrec := Script;
  Eci := Observation;
  Ecf := Observation;
  twoline2satrec := fun line1 _ => inr (script line1);
  propagate := fun satrec _ =>
    match satrec with
    | Throws msg => inl (JsError msg)
    | NoPosition => inr (PvObject None)
    | Seen o => inr (PvObject (Some o))
    end;
  gstime := fun _ => inr (Fin 0);
  eciToGeodetic := fun p _ => inr (mkGeodetic (obs_lng p) (obs_lat p) (obs_height p));
  degreesLat := fun x => inr x;
  degreesLong := fun x => inr x;
  degreesToRadians := fun _ => inr (Fin 0);
  eciToEcf := fun p _ => inr p;
  ecfToLookAngles := fun _ p => inr (mkLookAngles (Fin 0) (obs_elevation p) (obs_range p));
  radiansToDegrees := fun x => inr x
|}.

(** A stand-in for the conversions, enough for whole numbers. *)
Definition sample_conversions : Conversions := {|
  StringToNumber := JsString.parseInt;
  NumberToString := fun n =>
    match n with
    | Fin x => NilEmpty.string_of_int (Z.to_int (Int_part x))
    | PosInf => "Infinity"
    | NegInf => "-Infinity"
    | NaN => "NaN"
    end
|}.

(** A satellite at 550 km seen at 38.5 degrees, 2500/3 km away. *)
Definition sample_observation : Observation :=
  mkObservation (Fin 53.0) (Fin (-75.7)) (Fin 550) (Fin 38.5) (Fin (2500 / 3)).

(** A satellite whose look angles come out as NaN. *)
Definition singular_observation : Observation :=
  mkObservation (Fin 45.42) (Fin (-75.7)) (Fin 550) NaN NaN.

(** Element sets for which the stand-in gives no position, throws, and
    gives look angles that are not numbers. *)
Definition decayed_record : value := tle_record "1 00005U" "2 00005".

Definition broken_record : value := tle_record "1 00006U" "2 00006".

Definition singular_record : value := tle_record "1 00007U" "2 00007".

Definition sample_script (line1 : value) : Script :=
  match line1 with
  | VStr s =>
      if String.eqb s sample_line1 then Seen sample_observation
      else if String.eqb s "1 00005U" then NoPosition
      else if String.eqb s "1 00007U" then Seen singular_observation
      else Throws "mean motion less than 0.0"
  | _ => Throws "line1 is not a string"
  end.

Definition sample_satellite_js : SatelliteJs := scripted_satellite_js sample_script.

(** The request the reference client sends. *)
Definition sample_request : Request :=
  mkRequest "starlink" [("lat", "45.4200"); ("lng", "-75.7000"); ("alt", "100");
                        ("maxSats", "300")].

(** The entry of the sample satellite. *)
Definition sample_entry : value :=
  entry_of "starlink" (VNum (num_of_Z 44713)) sample_observation.

(** ** Order and white space *)


(** A string of white space only. *)
Fixpoint whitespace_only (s : string) : bool :=
  match s with
  | EmptyString => true
  | String c s' => JsString.isWhiteSpace c && whitespace_only s'
  end.


(** The properties of an entry of a response, in the order of the object
    literal. *)
Definition entry_keys : list string :=
  ["noradId"; "lat"; "lng"; "altitudeKm"; "elevation"; "rangeKm"; "pathLossDb";
   "coverageRadiusKm"; "available"].

(** [lines.join(sep)] for a one-character separator. *)
Fixpoint join (sep : ascii) (lines : list string) : string :=
  match lines with
  | [] => EmptyString
  | [l] => l
  | l :: rest => l ++ String sep (join sep rest)
  end.

(** Whether the character [c] occurs in [s]. *)
Fixpoint has_char (c : ascii) (s : string) : bool :=
  match s with
  | EmptyString => false
  | String c' s' => Ascii.eqb c' c || has_char c s'
  end.

(** The message of the error a failing fetch throws. *)
Definition fail_message (r : HttpResult) : string :=
  match r with
  | HttpError msg => msg
  | HttpOk _ => "Empty TLE response"
  end.

(** The world [w] with another network. *)
Definition with_network (w : World) (net : string -> HttpResult) : World :=
  mkWorld (files w) (clock w) (ticks w) net.

(* ================================================================== *)
(** * Properties of the catalog parser *)

Section ParserFacts.

Lemma triplet_ind (P : list string -> Prop) :
  P [] -> (forall a, P [a]) -> (forall a b, P [a; b]) ->
  (forall a b c rest, P rest -> P (a :: b :: c :: rest)) ->
  forall l, P l.
Proof.
  intros H0 H1 H2 H3.
  assert (forall n l, (List.length l <= n)%nat -> P l) as Hall.
  { induction n as [|n IH]; intros l Hl.
    - destruct l; [exact H0 | simpl in Hl; lia].
    - destruct l as [|a [|b [|c rest]]]; auto.
      apply H3, IH. simpl in Hl. lia. }
  intros l. apply (Hall (List.length l)). lia.
Qed.

Lemma parse_step_cons3 lines i a b c rest sats :
  skipn i lines = a :: b :: c :: rest ->
  parse_step lines i sats
  = sats ++ (if prefixes_ok b c then [tle_record b c] else []).
Proof.
  intros Hs. unfold parse_step, at_index.
  rewrite <- (nth_error_skipn i lines 1), <- (nth_error_skipn i lines 2), Hs.
  simpl. unfold prefixes_ok.
  destruct (JsString.startsWith b "1 " && JsString.startsWith c "2 ");
    [reflexivity | now rewrite app_nil_r].
Qed.

Lemma parse_step_short lines i a b sats :
  skipn i lines = [a; b] -> parse_step lines i sats = sats.
Proof.
  intros Hs. unfold parse_step, at_index.
  rewrite <- (nth_error_skipn i lines 1), <- (nth_error_skipn i lines 2), Hs.
  reflexivity.
Qed.

(** The loop with enough fuel appends the accepted triplets found from
    index [i] on. *)
Lemma parse_loop_accept fuel : forall lines i sats,
  (List.length lines <= i + fuel)%nat ->
  parse_loop fuel lines i sats = sats ++ accept_triplets (skipn i lines).
Proof.
  induction fuel as [|fuel IH]; intros lines i sats Hlen; simpl.
  - rewrite skipn_all2 by lia. now rewrite app_nil_r.
  - pose proof (length_skipn i lines) as Hsk.
    destruct (Z.ltb_spec (Z.of_nat i) (Z.of_nat (List.length lines) - 1)) as [Hlt|Hge].
    + rewrite IH by lia.
      replace (i + 3)%nat with (3 + i)%nat by lia.
      rewrite <- skipn_skipn.
      destruct (skipn i lines) as [|a [|b [|c rest]]] eqn:Hs;
        simpl in Hsk; try lia.
      * rewrite (parse_step_short _ _ _ _ _ Hs). reflexivity.
      * rewrite (parse_step_cons3 _ _ _ _ _ _ _ Hs). simpl skipn.
        simpl accept_triplets. now rewrite <- app_assoc.
    + destruct (skipn i lines) as [|a [|b rest]] eqn:Hs; simpl in Hsk;
        try (now rewrite app_nil_r); lia.
Qed.

(** Fuel beyond the number of lines changes nothing. *)
Lemma parse_loop_fuel lines fuel :
  (List.length lines <= fuel)%nat ->
  parse_loop fuel lines 0 [] = parse_loop (List.length lines) lines 0 [].
Proof.
  intros H. rewrite !parse_loop_accept by lia. reflexivity.
Qed.

Lemma parseTLEs_accept tleText :
  parseTLEs tleText = firstn 30 (accept_triplets (tle_lines tleText)).
Proof.
  unfold parseTLEs. rewrite parse_loop_accept by lia. reflexivity.
Qed.

Lemma parse_lines_accept lines :
  parse_lines lines = firstn 30 (accept_triplets lines).
Proof. unfold parse_lines. now rewrite parse_loop_accept by lia. Qed.

Lemma triplet_records_short lines k :
  (List.length lines < 3)%nat -> triplet_records lines k = [].
Proof.
  intros H. unfold triplet_records, at_index.
  destruct (nth_error lines (3 * k + 2)) eqn:E2.
  - assert (3 * k + 2 < List.length lines)%nat
      by (apply nth_error_Some; congruence).
    lia.
  - now destruct (nth_error lines (3 * k + 1)).
Qed.

Lemma triplet_records_shift a b c rest k :
  triplet_records (a :: b :: c :: rest) (S k) = triplet_records rest k.
Proof.
  unfold triplet_records, at_index.
  replace (3 * S k + 1)%nat with (S (S (S (3 * k + 1)))) by lia.
  replace (3 * S k + 2)%nat with (S (S (S (3 * k + 2)))) by lia.
  reflexivity.
Qed.

Lemma flat_map_nil {A B} (f : A -> list B) (l : list A) :
  (forall x, f x = []) -> flat_map f l = [].
Proof.
  intros Hf. induction l as [|x l IH]; simpl; [reflexivity|].
  now rewrite Hf, IH.
Qed.

Lemma flat_map_map_S {B} (f : nat -> list B) (l : list nat) :
  flat_map f (map S l) = flat_map (fun k => f (S k)) l.
Proof.
  induction l as [|x l IH]; simpl; [reflexivity | now rewrite IH].
Qed.

(** The recursion over triplets visits the triplets in catalog order. *)
Lemma accept_triplets_catalog : forall lines n,
  (List.length lines <= 3 * n + 2)%nat ->
  accept_triplets lines = flat_map (triplet_records lines) (seq 0 n).
Proof.
  intros lines. induction lines as [| a | a b | a b c rest IH] using triplet_ind;
    intros n Hn.
  1-3: symmetry; apply flat_map_nil; intros k;
       apply triplet_records_short; simpl; lia.
  destruct n as [|n]; [simpl in Hn; lia|].
  rewrite <- cons_seq, <- seq_shift. simpl flat_map.
  rewrite flat_map_map_S.
  rewrite (flat_map_ext _ _ (triplet_records_shift a b c rest)).
  rewrite <- (IH n) by (simpl in Hn; lia).
  reflexivity.
Qed.

Lemma parseTLEs_catalog tleText :
  parseTLEs tleText = firstn 30 (catalog_order_records (tle_lines tleText)).
Proof.
  rewrite parseTLEs_accept. unfold catalog_order_records.
  now rewrite (accept_triplets_catalog _ (List.length (tle_lines tleText))) by lia.
Qed.

(** Membership in the parser's result, read back on the lines. *)
Lemma In_accept_triplets : forall lines r,
  In r (accept_triplets lines) ->
  exists k l1 l2,
    at_index lines (3 * k + 1) = Some l1 /\
    at_index lines (3 * k + 2) = Some l2 /\
    prefixes_ok l1 l2 = true /\ r = tle_record l1 l2.
Proof.
  intros lines r Hin.
  rewrite (accept_triplets_catalog lines (List.length lines)) in Hin by lia.
  apply in_flat_map in Hin. destruct Hin as [k [_ Hk]].
  unfold triplet_records in Hk.
  destruct (at_index lines (3 * k + 1)) as [l1|] eqn:E1; [|contradiction].
  destruct (at_index lines (3 * k + 2)) as [l2|] eqn:E2; [|contradiction].
  destruct (prefixes_ok l1 l2) eqn:Eok; [|contradiction].
  destruct Hk as [Hk|[]]. exists k, l1, l2. auto.
Qed.

Lemma In_firstn {A} (n : nat) (l : list A) (x : A) :
  In x (firstn n l) -> In x l.
Proof.
  intros H. rewrite <- (firstn_skipn n l). apply in_or_app. now left.
Qed.

(** Dropping a whole triplet that fails a prefix test leaves the
    accepted records of the other triplets as they are. *)
Lemma accept_triplets_skip : forall pre name l1 l2 rest,
  (List.length pre mod 3 = 0)%nat ->
  prefixes_ok l1 l2 = false ->
  accept_triplets (pre ++ name :: l1 :: l2 :: rest) = accept_triplets (pre ++ rest).
Proof.
  intros pre. induction pre as [| a | a b | a b c pre IH] using triplet_ind;
    intros name l1 l2 rest Hmod Hbad.
  - simpl. now rewrite Hbad.
  - simpl in Hmod. discriminate.
  - simpl in Hmod. discriminate.
  - simpl. f_equal. apply IH; [|exact Hbad].
    change (List.length (a :: b :: c :: pre)) with (3 + List.length pre)%nat in Hmod.
    replace (3 + List.length pre)%nat with (List.length pre + 1 * 3)%nat in Hmod by lia.
    now rewrite Nat.Div0.mod_add in Hmod.
Qed.

Lemma digit_facts c :
  is_digit c = true ->
  JsString.isWhiteSpace c = false /\ Ascii.eqb c "-"%char = false /\
  Ascii.eqb c "+"%char = false /\ Ascii.eqb c "x"%char = false /\
  Ascii.eqb c "X"%char = false /\
  JsString.digit_val c = Some (Z.of_nat (nat_of_ascii c) - 48)%Z /\
  (Z.of_nat (nat_of_ascii c) - 48 <? 10)%Z = true.
Proof.
  destruct c as [[] [] [] [] [] [] [] []]; intros H;
    try discriminate H; repeat split; reflexivity.
Qed.

Lemma digits_prefix_decimal s :
  all_digits s = true -> JsString.digits_prefix 10 s = decimal_digits s.
Proof.
  induction s as [|c s IH]; simpl; intros H; [reflexivity|].
  apply andb_prop in H. destruct H as [Hc Hs].
  destruct (digit_facts c Hc) as (_ & _ & _ & _ & _ & Hd & Hlt).
  now rewrite Hd, Hlt, IH.
Qed.

Lemma trimStart_blanks n s : JsString.trimStart (blanks n ++ s) = JsString.trimStart s.
Proof. induction n as [|n IH]; simpl; [reflexivity | exact IH]. Qed.

(** [parseInt] on a field of decimal digits, blank-padded on the left,
    is the number the digits denote. *)
Lemma parseInt_decimal n c ds :
  all_digits (String c ds) = true ->
  JsString.parseInt (blanks n ++ String c ds) = num_of_Z (decimal_value (String c ds)).
Proof.
  intros Hall. unfold JsString.parseInt, JsString.parseInt_Z.
  rewrite trimStart_blanks.
  pose proof Hall as Hall'. simpl in Hall'. apply andb_prop in Hall'.
  destruct Hall' as [Hc Hds].
  destruct (digit_facts c Hc) as (Hws & Hm & Hp & _ & _ & _ & _).
  simpl JsString.trimStart. rewrite Hws, Hm, Hp.
  assert (Hradix :
    match String c ds with
    | String c0 (String x r) =>
        if Ascii.eqb c0 "0"%char && (Ascii.eqb x "x"%char || Ascii.eqb x "X"%char)
        then (16%Z, r) else (10%Z, String c ds)
    | _ => (10%Z, String c ds)
    end = (10%Z, String c ds)).
  { destruct ds as [|x r]; [reflexivity|].
    simpl in Hds. apply andb_prop in Hds. destruct Hds as [Hx _].
    destruct (digit_facts x Hx) as (_ & _ & _ & Hx1 & Hx2 & _ & _).
    now rewrite Hx1, Hx2, andb_false_r. }
  rewrite Hradix, (digits_prefix_decimal _ Hall).
  simpl decimal_digits. unfold decimal_value, JsString.digits_value. simpl decimal_digits.
  now rewrite Z.mul_1_l.
Qed.

End ParserFacts.

Lemma parseTLEs_sample : parseTLEs sample_catalog = [sample_record].
Proof. reflexivity. Qed.

Lemma parseTLEs_sample_with_junk : parseTLEs sample_catalog_with_junk = [sample_record].
Proof. reflexivity. Qed.

Example parseInt_padded : JsString.parseInt_Z "  694" = Some 694%Z.
Proof. reflexivity. Qed.

Example parseInt_stops_at_letter : JsString.parseInt_Z "4471U" = Some 4471%Z.
Proof. reflexivity. Qed.

Example parseInt_hex : JsString.parseInt_Z "0x1A" = Some 26%Z.
Proof. reflexivity. Qed.

Example parseInt_no_digit : JsString.parseInt_Z "A1234" = None.
Proof. reflexivity. Qed.

Example split_empty : JsString.split LF "" = [""].
Proof. reflexivity. Qed.

Example parseTLEs_empty : parseTLEs "" = [].
Proof. reflexivity. Qed.

Example parseTLEs_only_junk :
  parseTLEs ("DEBRIS" ++ NL ++ "x 00000" ++ NL ++ "2 00000" ++ NL) = [].
Proof. reflexivity. Qed.

Example parseTLEs_two_line_format :
  parseTLEs (sample_line1 ++ NL ++ sample_line2 ++ NL) = [].
Proof. reflexivity. Qed.

Example parseTLEs_cap :
  List.length (accept_triplets (tle_lines (copies 31 sample_catalog))) = 31%nat /\
  List.length (parseTLEs (copies 31 sample_catalog)) = 30%nat.
Proof. split; reflexivity. Qed.

(** ** Claims about the parser *)

(** C6.  Every record the parser emits comes from a triplet of the text
    whose second line starts with "1 " and whose third line starts with
    "2 "; its [noradId] is [parseInt] of columns 3 to 7 of that second line,
    which is the decimal number written there when the field holds digits,
    blank-padded on the left.  A triplet that lacks a prefix is skipped and
    the rest is parsed as if that triplet were not in the text. *)
Theorem parseTLEs_prefix_gate : forall tleText,
  (forall r, In r (parseTLEs tleText) ->
     exists k l1 l2,
       at_index (tle_lines tleText) (3 * k + 1) = Some l1 /\
       at_index (tle_lines tleText) (3 * k + 2) = Some l2 /\
       JsString.startsWith l1 "1 " = true /\
       JsString.startsWith l2 "2 " = true /\
       r = VObj [("noradId", VNum (JsString.parseInt (JsString.substring l1 2 7)));
                 ("line1", VStr l1); ("line2", VStr l2)] /\
       (forall n c ds,
          JsString.substring l1 2 7 = (blanks n ++ String c ds)%string ->
          all_digits (String c ds) = true ->
          get "noradId" r = VNum (num_of_Z (decimal_value (String c ds))))) /\
  (forall pre name l1 l2 rest,
     tle_lines tleText = pre ++ name :: l1 :: l2 :: rest ->
     (List.length pre mod 3 = 0)%nat ->
     JsString.startsWith l1 "1 " && JsString.startsWith l2 "2 " = false ->
     parseTLEs tleText = parse_lines (pre ++ rest)).
Proof.
  intros tleText. split.
  - intros r Hin. rewrite parseTLEs_accept in Hin. apply In_firstn in Hin.
    destruct (In_accept_triplets _ _ Hin) as (k & l1 & l2 & H1 & H2 & Hok & Hr).
    unfold prefixes_ok in Hok. apply andb_prop in Hok. destruct Hok as [Ha Hb].
    exists k, l1, l2. repeat split; auto.
    intros n c ds Hfield Hdigits. subst r. unfold tle_record. simpl get.
    now rewrite Hfield, parseInt_decimal.
  - intros pre name l1 l2 rest Hlines Hmod Hbad.
    rewrite parseTLEs_accept, parse_lines_accept, Hlines.
    now rewrite accept_triplets_skip.
Qed.

Lemma parseTLEs_prefix_gate_witness :
  get "noradId" sample_record = VNum (num_of_Z 44713) /\
  parseTLEs sample_catalog_with_junk
  = parse_lines ["STARLINK-1007"; sample_line1; sample_line2].
Proof.
  destruct (parseTLEs_prefix_gate sample_catalog_with_junk) as [Hrec Hskip].
  split.
  - destruct (Hrec sample_record) as (k & l1 & l2 & _ & _ & _ & _ & Hr & Hid).
    + rewrite parseTLEs_sample_with_junk. left. reflexivity.
    + injection Hr as Hl1 Hl2. subst l1.
      apply (Hid 0%nat "4"%char "4713"); reflexivity.
  - apply (Hskip [] "DEBRIS" "x 00000" "2 00000"
                 ["STARLINK-1007"; sample_line1; sample_line2]); reflexivity.
Defined.

(** C7.  The parser returns at most 30 records, and they are the first 30
    of the accepted records taken in the order of the triplets in the
    text. *)
Theorem parseTLEs_capped_in_catalog_order : forall tleText,
  (List.length (parseTLEs tleText) <= 30)%nat /\
  parseTLEs tleText = firstn 30 (catalog_order_records (tle_lines tleText)).
Proof.
  intros tleText. split.
  - unfold parseTLEs. apply firstn_le_length.
  - apply parseTLEs_catalog.
Qed.

(** C9, as the claim states it, fails: the record parsed from the sample
    catalog has no [name] property. *)
Lemma parseTLEs_record_lacks_name :
  ~ (forall r, In r (parseTLEs sample_catalog) ->
       has_own "noradId" r = true /\ has_own "line1" r = true /\
       has_own "line2" r = true /\ has_own "name" r = true).
Proof.
  intros H. destruct (H sample_record) as (_ & _ & _ & Hname).
  - rewrite parseTLEs_sample. left. reflexivity.
  - discriminate Hname.
Qed.

(** C9, amended.  Every record the parser emits has exactly the three
    properties [noradId], [line1] and [line2], in this order; the name of
    the triplet is not part of it. *)
Theorem parseTLEs_record_fields : forall tleText r,
  In r (parseTLEs tleText) ->
  keys r = ["noradId"; "line1"; "line2"] /\ has_own "name" r = false.
Proof.
  intros tleText r Hin.
  rewrite parseTLEs_accept in Hin. apply In_firstn in Hin.
  destruct (In_accept_triplets _ _ Hin) as (k & l1 & l2 & _ & _ & _ & Hr).
  subst r. split; reflexivity.
Qed.

Lemma parseTLEs_record_fields_witness :
  keys sample_record = ["noradId"; "line1"; "line2"] /\
  has_own "name" sample_record = false.
Proof.
  apply (parseTLEs_record_fields sample_catalog).
  rewrite parseTLEs_sample. left. reflexivity.
Defined.

(* ================================================================== *)
(** * Properties of the TLE cache *)

Section CacheFacts.

Variables (constellation group : string).
Hypothesis Hgroup : lookup constellation groups = Some group.

Lemma isStale_run path w :
  isStale path w =
  match lookup path (files w) with
  | None => (inr true, w, [])
  | Some f => (inr (clock w (ticks w) - mtimeMs f >? MIN_REFRESH_MS)%Z, tick w, [])
  end.
Proof.
  unfold isStale, bind, Fs.existsSync, Fs.statSync_mtimeMs, Date_now, ret, tick.
  destruct (lookup path (files w)) eqn:E; simpl; rewrite ?E; reflexivity.
Qed.

(** A fresh entry is served from the file. *)
Lemma get_fresh w f :
  lookup (cachePathOf group) (files w) = Some f ->
  (clock w (ticks w) - mtimeMs f >? MIN_REFRESH_MS)%Z = false ->
  getConstellationTLEs constellation w
  = (inr (parseTLEs (content f)), tick w, [ConsoleLog ("Using cached " ++ group)]).
Proof.
  intros Hf Hage. unfold getConstellationTLEs. rewrite Hgroup. cbv zeta.
  unfold bind at 1. rewrite isStale_run, Hf, Hage.
  change (negb false) with true. cbv iota.
  unfold bind, console_log, emit, Fs.readFileSync, ret, tick. cbn [files].
  rewrite Hf. reflexivity.
Qed.

Lemma files_world_at_fetch w : files (world_at_fetch group w) = files w.
Proof. unfold world_at_fetch. now destruct (lookup _ (files w)). Qed.

Lemma network_world_at_fetch w : network (world_at_fetch group w) = network w.
Proof. unfold world_at_fetch. now destruct (lookup _ (files w)). Qed.

(** A stale or missing entry whose refresh fails: the old file, if any,
    is read back and the file system is left as it was. *)
Lemma get_stale_fetch_fails w :
  stale group w = true ->
  fetch_fails (network w (urlOf group)) = true ->
  exists evs,
    http_requests evs = [urlOf group] /\
    getConstellationTLEs constellation w
    = (match lookup (cachePathOf group) (files w) with
       | Some f => inr (parseTLEs (content f))
       | None => inl (no_cache_available group)
       end, world_at_fetch group w, evs).
Proof.
  intros Hstale Hfail. unfold getConstellationTLEs. rewrite Hgroup. cbv zeta.
  unfold bind at 1. rewrite isStale_run.
  assert (Hst : match lookup (cachePathOf group) (files w) with
                | None => (inr true, w, [])
                | Some f => (inr (clock w (ticks w) - mtimeMs f >? MIN_REFRESH_MS)%Z,
                             tick w, [])
                end = (@inr exn bool true, world_at_fetch group w, @nil Event)).
  { unfold stale in Hstale. unfold world_at_fetch.
    destruct (lookup (cachePathOf group) (files w)); [now rewrite Hstale | reflexivity]. }
  rewrite Hst. change (negb true) with false. cbv iota.
  pose proof (files_world_at_fetch w) as Hfiles.
  pose proof (network_world_at_fetch w) as Hnet.
  set (w1 := world_at_fetch group w) in *.
  unfold try_catch, bind, console_log, console_error, emit, axios_get,
    Fs.existsSync, Fs.readFileSync, Fs.writeFileSync, throw, ret.
  cbv beta. rewrite Hnet.
  destruct (network w (urlOf group)) as [msg|data]; simpl in Hfail;
    [|unfold blank_body in Hfail; rewrite Hfail]; cbv beta iota; rewrite Hfiles;
    destruct (lookup (cachePathOf group) (files w)) eqn:E;
    cbv beta iota; rewrite ?Hfiles, ?E;
    (eexists; split; [|reflexivity]; reflexivity).
Qed.

(** A stale or missing entry whose refresh succeeds: the body is stored
    and parsed. *)
Lemma get_stale_fetch_ok w data :
  stale group w = true ->
  network w (urlOf group) = HttpOk data ->
  blank_body data = false ->
  exists evs,
    http_requests evs = [urlOf group] /\
    getConstellationTLEs constellation w
    = (inr (parseTLEs data), written group (world_at_fetch group w) data, evs).
Proof.
  intros Hstale Hnetw Hbody. unfold getConstellationTLEs. rewrite Hgroup. cbv zeta.
  unfold bind at 1. rewrite isStale_run.
  assert (Hst : match lookup (cachePathOf group) (files w) with
                | None => (inr true, w, [])
                | Some f => (inr (clock w (ticks w) - mtimeMs f >? MIN_REFRESH_MS)%Z,
                             tick w, [])
                end = (@inr exn bool true, world_at_fetch group w, @nil Event)).
  { unfold stale in Hstale. unfold world_at_fetch.
    destruct (lookup (cachePathOf group) (files w)); [now rewrite Hstale | reflexivity]. }
  rewrite Hst. change (negb true) with false. cbv iota.
  pose proof (network_world_at_fetch w) as Hnet.
  unfold written. set (w1 := world_at_fetch group w) in *.
  unfold try_catch, bind, console_log, console_error, emit, axios_get,
    Fs.existsSync, Fs.readFileSync, Fs.writeFileSync, throw, ret.
  cbv beta. rewrite <- Hnet in Hnetw. rewrite Hnetw. cbv beta iota.
  unfold blank_body in Hbody. rewrite Hbody. cbv beta iota.
  eexists; split; [|reflexivity]; reflexivity.
Qed.

Lemma stale_false_inv w :
  stale group w = false ->
  exists f, lookup (cachePathOf group) (files w) = Some f /\
            (clock w (ticks w) - mtimeMs f >? MIN_REFRESH_MS)%Z = false.
Proof.
  unfold stale. destruct (lookup (cachePathOf group) (files w)) as [f|];
    [intros H; now exists f | discriminate].
Qed.

End CacheFacts.

Lemma unknown_constellation_run constellation w :
  lookup constellation groups = None ->
  exists e, getConstellationTLEs constellation w = (inl e, w, []).
Proof.
  intros H. unfold getConstellationTLEs. rewrite H.
  destruct (inherited constellation); eexists; reflexivity.
Qed.

(** Whatever the call returns is the parse of some catalog text. *)
Lemma getConstellationTLEs_parsed constellation w tleList :
  result_of (getConstellationTLEs constellation w) = inr tleList ->
  exists tleText, tleList = parseTLEs tleText.
Proof.
  intros Hres.
  destruct (lookup constellation groups) as [group|] eqn:Hgroup.
  - destruct (stale group w) eqn:Hstale.
    + destruct (fetch_fails (network w (urlOf group))) eqn:Hfail.
      * destruct (get_stale_fetch_fails constellation group Hgroup w Hstale Hfail)
          as (evs & _ & Hrun).
        rewrite Hrun in Hres. unfold result_of in Hres. simpl in Hres.
        destruct (lookup (cachePathOf group) (files w)) as [f|]; [|discriminate].
        injection Hres as <-. now exists (content f).
      * destruct (network w (urlOf group)) as [msg|data] eqn:Hnet; [discriminate|].
        destruct (get_stale_fetch_ok constellation group Hgroup w data Hstale Hnet Hfail)
          as (evs & _ & Hrun).
        rewrite Hrun in Hres. injection Hres as <-. now exists data.
    + destruct (stale_false_inv group w Hstale) as (f & Hf & Hage).
      rewrite (get_fresh constellation group Hgroup w f Hf Hage) in Hres.
      injection Hres as <-. now exists (content f).
  - destruct (unknown_constellation_run constellation w Hgroup) as [e He].
    rewrite He in Hres. discriminate.
Qed.

(** At an age of exactly two hours the file is still served; one
    millisecond later it is stale. *)
Example stale_boundary :
  stale "starlink" (sample_world (sample_cache_file 0) 7200000 (HttpOk sample_catalog)) = false /\
  stale "starlink" (sample_world (sample_cache_file 0) 7200001 (HttpOk sample_catalog)) = true.
Proof. split; reflexivity. Qed.

(** ** Claim about the fresh cache *)

(** C1.  When the cache file of a group exists and is younger than two
    hours at the reading of the clock, the call requests nothing over HTTP
    and returns the parse of the file; and whenever the call does request
    something over HTTP, the file is missing or its age is at least two
    hours. *)
Theorem fresh_cache_no_network : forall constellation w,
  let now := clock w (ticks w) in
  let out := getConstellationTLEs constellation w in
  (forall group f,
     lookup constellation groups = Some group ->
     lookup (cachePathOf group) (files w) = Some f ->
     (now - mtimeMs f < MIN_REFRESH_MS)%Z ->
     result_of out = inr (parseTLEs (content f)) /\ http_requests (events_of out) = []) /\
  (http_requests (events_of out) <> [] ->
     exists group,
       lookup constellation groups = Some group /\
       (lookup (cachePathOf group) (files w) = None \/
        exists f, lookup (cachePathOf group) (files w) = Some f /\
                  (MIN_REFRESH_MS <= now - mtimeMs f)%Z)).
Proof.
  intros constellation w now out. split.
  - intros group f Hgroup Hf Hage. subst out.
    rewrite (get_fresh constellation group Hgroup w f Hf) by (subst now; lia).
    split; reflexivity.
  - intros Hreq. destruct (lookup constellation groups) as [group|] eqn:Hgroup.
    + exists group. split; [reflexivity|].
      destruct (lookup (cachePathOf group) (files w)) as [f|] eqn:Hf; [right | now left].
      exists f. split; [reflexivity|].
      destruct (Z.gtb_spec (now - mtimeMs f) MIN_REFRESH_MS) as [Hgt|Hle]; [lia|].
      exfalso. apply Hreq. subst out.
      rewrite (get_fresh constellation group Hgroup w f Hf); [reflexivity|].
      subst now. lia.
    + exfalso. apply Hreq. subst out.
      destruct (unknown_constellation_run constellation w Hgroup) as [e He].
      now rewrite He.
Qed.

Lemma fresh_cache_no_network_witness :
  let w := sample_world (sample_cache_file 1000) 5000 (HttpError "timeout of 10000ms exceeded") in
  result_of (getConstellationTLEs "starlink" w) = inr [sample_record] /\
  http_requests (events_of (getConstellationTLEs "starlink" w)) = [].
Proof.
  intros w.
  destruct (fresh_cache_no_network "starlink" w) as [Hfresh _].
  apply (Hfresh "starlink" (mkFile sample_catalog 1000)).
  - reflexivity.
  - reflexivity.
  - reflexivity.
Defined.

(* ================================================================== *)
(** * Properties of the request handler *)

Section HandlerFacts.

Context {sat_js : SatelliteJs} {conv : Conversions}.

(** The loop body is the library calls followed by one push. *)
Lemma satellite_body_run constellation lat lng alt results sat w :
  satellite_body constellation lat lng alt results sat w =
  match observe lat lng alt sat w with
  | (inl e, w1, evs) => (inl e, w1, evs)
  | (inr None, w1, evs) => (inr results, w1, evs)
  | (inr (Some o), w1, evs) =>
      let results' := results ++ [entry_of constellation (get "noradId" sat) o] in
      (inr results', w1, evs ++ progress_events constellation results' o)
  end.
Proof.
  unfold satellite_body, observe. cbv zeta.
  unfold bind, Date_now, ret, lift. cbv beta iota.
  destruct (twoline2satrec _ _) as [e|satrec]; cbv beta iota; [reflexivity|].
  destruct (propagate _ _) as [e|[|[position|]]]; cbv beta iota; try reflexivity.
  destruct (gstime _) as [e|gmst]; cbv beta iota; [reflexivity|].
  destruct (eciToGeodetic _ _) as [e|geo]; cbv beta iota; [reflexivity|].
  destruct (degreesLat _) as [e|satLat]; cbv beta iota; [reflexivity|].
  destruct (degreesLong _) as [e|satLng]; cbv beta iota; [reflexivity|].
  destruct (degreesToRadians lng) as [e|obsLng]; cbv beta iota; [reflexivity|].
  destruct (degreesToRadians lat) as [e|obsLat]; cbv beta iota; [reflexivity|].
  destruct (eciToEcf _ _) as [e|satEcf]; cbv beta iota; [reflexivity|].
  destruct (ecfToLookAngles _ _) as [e|l]; cbv beta iota; [reflexivity|].
  destruct (radiansToDegrees _) as [e|elevationDeg]; cbv beta iota; [reflexivity|].
  cbn [app]. unfold entry_of, progress_events, in_range. cbn [obs_range obs_height
    obs_elevation obs_lat obs_lng satPos_of].
  destruct (JsNum.isFinite (rangeSat l) && (rangeSat l > Fin 0)%js); cbn [andb].
  - unfold console_log, emit.
    destruct (Nat.eqb _ 0); reflexivity.
  - reflexivity.
Qed.

(** One iteration never throws: a failure of the library is logged and
    leaves [results] as it was. *)
Lemma process_satellite_run constellation lat lng alt results sat w :
  process_satellite constellation lat lng alt results sat w =
  match observe lat lng alt sat w with
  | (inl e, w1, evs) =>
      (inr results, w1,
       evs ++ [ConsoleError ("NORAD " ++ to_string (get "noradId" sat) ++ ": "
                             ++ message e)])
  | (inr None, w1, evs) => (inr results, w1, evs)
  | (inr (Some o), w1, evs) =>
      let results' := results ++ [entry_of constellation (get "noradId" sat) o] in
      (inr results', w1, evs ++ progress_events constellation results' o)
  end.
Proof.
  unfold process_satellite, try_catch. rewrite satellite_body_run.
  destruct (observe lat lng alt sat w) as [[[e|[o|]] w1] evs]; reflexivity.
Qed.

Lemma process_satellite_result constellation lat lng alt results sat w :
  result_of (process_satellite constellation lat lng alt results sat w)
  = inr (match outcome_of lat lng alt sat w with
         | Omitted => results
         | Pushed o => results ++ [entry_of constellation (get "noradId" sat) o]
         end).
Proof.
  rewrite process_satellite_run. unfold outcome_of.
  destruct (observe lat lng alt sat w) as [[[e|[o|]] w1] evs]; reflexivity.
Qed.

(** The world an iteration leaves does not depend on [results]. *)
Lemma process_satellite_world constellation lat lng alt results sat w :
  world_of (process_satellite constellation lat lng alt results sat w)
  = world_of (observe lat lng alt sat w).
Proof.
  rewrite process_satellite_run.
  destruct (observe lat lng alt sat w) as [[[e|[o|]] w1] evs]; reflexivity.
Qed.

Lemma bind_run {A B} (m : M A) (k : A -> M B) w a w1 ev1 :
  m w = (inr a, w1, ev1) ->
  bind m k w = (result_of (k a w1), world_of (k a w1), ev1 ++ events_of (k a w1)).
Proof.
  intros H. unfold bind. rewrite H.
  now destruct (k a w1) as [[r w2] ev2].
Qed.

(** The loop over the element sets always completes. *)
Lemma process_all_total constellation lat lng alt tleList :
  forall results w,
  exists rs w' evs,
    process_all constellation lat lng alt tleList results w = (inr rs, w', evs).
Proof.
  induction tleList as [|sat rest IH]; intros results w; simpl.
  - now exists results, w, [].
  - pose proof (process_satellite_result constellation lat lng alt results sat w) as Hr.
    destruct (process_satellite constellation lat lng alt results sat w)
      as [[r w1] ev1] eqn:Hone.
    unfold result_of in Hr. simpl in Hr. subst r.
    rewrite (bind_run _ _ _ _ _ _ Hone).
    destruct (IH (match outcome_of lat lng alt sat w with
                  | Omitted => results
                  | Pushed o => results ++ [entry_of constellation (get "noradId" sat) o]
                  end) w1) as (rs & w' & evs & Hrest).
    rewrite Hrest. now exists rs, w', (ev1 ++ evs).
Qed.

(** The loop over [l1 ++ l2] is the loop over [l1] followed by the loop
    over [l2] from the results and the world the first one leaves. *)
Lemma process_all_app constellation lat lng alt l1 l2 :
  forall results w rs1 w1 ev1,
  process_all constellation lat lng alt l1 results w = (inr rs1, w1, ev1) ->
  process_all constellation lat lng alt (l1 ++ l2) results w
  = (result_of (process_all constellation lat lng alt l2 rs1 w1),
     world_of (process_all constellation lat lng alt l2 rs1 w1),
     ev1 ++ events_of (process_all constellation lat lng alt l2 rs1 w1)).
Proof.
  induction l1 as [|sat rest IH]; intros results w rs1 w1 ev1 H; simpl in *.
  - unfold ret in H. injection H as <- <- <-.
    now destruct (process_all constellation lat lng alt l2 results w) as [[r w2] ev2].
  - pose proof (process_satellite_result constellation lat lng alt results sat w) as Hr.
    destruct (process_satellite constellation lat lng alt results sat w)
      as [[r wa] eva] eqn:Hone.
    unfold result_of in Hr. simpl in Hr. subst r.
    rewrite (bind_run _ _ _ _ _ _ Hone) in H. rewrite (bind_run _ _ _ _ _ _ Hone).
    injection H as Hres Hw Hev.
    set (rs := match outcome_of lat lng alt sat w with
               | Omitted => results
               | Pushed o => results ++ [entry_of constellation (get "noradId" sat) o]
               end) in *.
    destruct (process_all constellation lat lng alt rest rs wa) as [[r' w'] ev'] eqn:Hrest.
    unfold result_of, world_of, events_of in Hres, Hw, Hev. simpl in Hres, Hw, Hev.
    subst r' w' ev1.
    rewrite (IH rs wa rs1 w1 ev' Hrest).
    unfold result_of, world_of, events_of. simpl. now rewrite app_assoc.
Qed.

Lemma process_all_single constellation lat lng alt sat results w :
  result_of (process_all constellation lat lng alt [sat] results w)
  = result_of (process_satellite constellation lat lng alt results sat w).
Proof.
  simpl. pose proof (process_satellite_result constellation lat lng alt results sat w) as Hr.
  destruct (process_satellite constellation lat lng alt results sat w)
    as [[r w1] ev1] eqn:Hone.
  unfold result_of in Hr. simpl in Hr. subst r.
  now rewrite (bind_run _ _ _ _ _ _ Hone).
Qed.

(** Every entry the loop adds is the entry of an observation of one of
    the element sets. *)
Lemma process_all_entries constellation lat lng alt tleList :
  forall results w rs w' evs,
  process_all constellation lat lng alt tleList results w = (inr rs, w', evs) ->
  exists added,
    rs = results ++ added /\
    (List.length added <= List.length tleList)%nat /\
    Forall (fun e => exists sat o, In sat tleList /\
                       e = entry_of constellation (get "noradId" sat) o) added.
Proof.
  induction tleList as [|sat rest IH]; intros results w rs w' evs H; simpl in H.
  - unfold ret in H. injection H as <- <- <-.
    exists []. rewrite app_nil_r. repeat split; auto.
  - pose proof (process_satellite_result constellation lat lng alt results sat w) as Hr.
    destruct (process_satellite constellation lat lng alt results sat w)
      as [[r wa] eva] eqn:Hone.
    unfold result_of in Hr. simpl in Hr. subst r.
    rewrite (bind_run _ _ _ _ _ _ Hone) in H.
    destruct (process_all constellation lat lng alt rest _ wa) as [[r' w''] ev'] eqn:Hrest.
    unfold result_of, world_of, events_of in H. simpl in H.
    injection H as -> -> <-.
    destruct (IH _ _ _ _ _ Hrest) as (added & Hrs & Hlen & Hall).
    assert (Hweak : Forall (fun e => exists sat0 o, In sat0 (sat :: rest) /\
                       e = entry_of constellation (get "noradId" sat0) o) added).
    { eapply Forall_impl; [|exact Hall]. intros e (s0 & o & Hin & He).
      exists s0, o. split; [now right | exact He]. }
    destruct (outcome_of lat lng alt sat w) as [|o].
    + exists added. repeat split; auto. simpl. lia.
    + exists (entry_of constellation (get "noradId" sat) o :: added).
      rewrite Hrs, <- app_assoc. repeat split; auto.
      * simpl. lia.
      * constructor; [|exact Hweak]. exists sat, o. split; [now left | reflexivity].
Qed.

End HandlerFacts.

(** ** Facts about the number built-ins *)

Section NumFacts.

Local Open Scope R_scope.

Lemma Rltb_true a b : a < b -> JsNum.Rltb a b = true.
Proof. intros H. unfold JsNum.Rltb. destruct (Rlt_dec a b); [reflexivity | contradiction]. Qed.

Lemma Rltb_iff a b : JsNum.Rltb a b = true <-> a < b.
Proof.
  unfold JsNum.Rltb. destruct (Rlt_dec a b); split; intros H;
    try reflexivity; try assumption; try discriminate; contradiction.
Qed.

Lemma Rleb_true a b : a <= b -> JsNum.Rleb a b = true.
Proof. intros H. unfold JsNum.Rleb. destruct (Rle_dec a b); [reflexivity | contradiction]. Qed.

Lemma Reqb_false a b : a <> b -> JsNum.Reqb a b = false.
Proof. intros H. unfold JsNum.Reqb. destruct (Req_dec_T a b); [contradiction | reflexivity]. Qed.

Lemma ln10_pos : 0 < ln 10.
Proof. rewrite <- ln_1. apply ln_increasing; lra. Qed.

Lemma log10_finite x : 0 < x -> JsNum.log10 (Fin x) = Fin (log10R x).
Proof. intros H. unfold JsNum.log10. now rewrite Rltb_true. Qed.

Lemma log10R_mult x y : 0 < x -> 0 < y -> log10R (x * y) = log10R x + log10R y.
Proof.
  intros Hx Hy. unfold log10R. rewrite ln_mult by assumption.
  pose proof ln10_pos. field. lra.
Qed.

Lemma log10R_pow10 (n : nat) : log10R (10 ^ n) = INR n.
Proof.
  unfold log10R. rewrite ln_pow by lra. pose proof ln10_pos. field. lra.
Qed.

(** [Math.round] of a real known to lie within one half of an integer. *)
Lemma round_finite x z :
  IZR z - / 2 <= x < IZR z + / 2 -> JsNum.round (Fin x) = Fin (IZR z).
Proof.
  intros [Hlo Hhi]. unfold JsNum.round. f_equal. f_equal. symmetry.
  apply Int_part_spec. lra.
Qed.

Lemma in_range_false rangeKm : degenerate rangeKm <-> in_range rangeKm = false.
Proof.
  unfold in_range, degenerate, JsNum.gt. destruct rangeKm as [r| | |]; simpl;
    try (split; auto; fail).
  rewrite <- not_true_iff_false, Rltb_iff. lra.
Qed.

Lemma in_range_true r : 0 < r -> in_range (Fin r) = true.
Proof. intros H. unfold in_range, JsNum.gt. simpl. now apply Rltb_true. Qed.

Lemma elevRad_value : elevRad = Fin (10 * Rtrigo1.PI / 180).
Proof.
  unfold elevRad, MIN_ELEVATION_DEG, JsNum.PI. simpl.
  rewrite Reqb_false by lra. reflexivity.
Qed.

Lemma coverageRadiusKmOf_finite h :
  0 <= h -> coverageRadiusKmOf (Fin h) = Fin (coverage_radius_km h).
Proof.
  intros Hh. unfold coverageRadiusKmOf, centralAngleOf. rewrite elevRad_value.
  unfold EARTH_RADIUS. simpl JsNum.cos. simpl JsNum.mul. simpl JsNum.add.
  set (c := Rtrigo_def.cos (10 * Rtrigo1.PI / 180)).
  assert (Hc : -1 <= c <= 1) by apply COS_bound.
  unfold JsNum.div. rewrite Reqb_false by lra.
  assert (Hpos : 0 < / (6371 + h)) by (apply Rinv_0_lt_compat; lra).
  assert (Hy : -1 <= 6371 * c / (6371 + h) <= 1).
  { assert (Hinv : (6371 + h) * / (6371 + h) = 1) by (field; lra).
    unfold Rdiv. split; nra. }
  unfold JsNum.acos. rewrite !Rleb_true by lra. simpl.
  reflexivity.
Qed.

End NumFacts.

(** ** The response of the handler *)

Section ResponseFacts.

Context {sat_js : SatelliteJs} {conv : Conversions}.

Lemma coverage_handler_error req w e w1 ev1 :
  getConstellationTLEs (params_constellation req) w = (inl e, w1, ev1) ->
  coverage_handler req w = (inr (failure e), w1, ev1 ++ []).
Proof.
  intros H. unfold coverage_handler, try_catch, bind. cbv zeta. rewrite H.
  reflexivity.
Qed.

Lemma coverage_handler_ok req w tleList w1 ev1 rs w2 ev2 :
  getConstellationTLEs (params_constellation req) w = (inr tleList, w1, ev1) ->
  process_all (params_constellation req)
              (query_param (query req) "lat" (Fin 45.42))
              (query_param (query req) "lng" (Fin (-75.7)))
              (query_param (query req) "alt" (Fin 100)) tleList [] w1
  = (inr rs, w2, ev2) ->
  coverage_handler req w
  = (inr (report req rs), w2,
     ev1 ++ ev2 ++ [ConsoleLog ("Returning " ++ string_of_nat (List.length rs)
                                ++ " satellites")]).
Proof.
  intros Hget Hall. unfold coverage_handler, try_catch, bind. cbv zeta.
  rewrite Hget, Hall. reflexivity.
Qed.

Lemma coverage_handler_result req w tleList w1 ev1 rs :
  getConstellationTLEs (params_constellation req) w = (inr tleList, w1, ev1) ->
  result_of (process_all (params_constellation req)
               (query_param (query req) "lat" (Fin 45.42))
               (query_param (query req) "lng" (Fin (-75.7)))
               (query_param (query req) "alt" (Fin 100)) tleList [] w1) = inr rs ->
  result_of (coverage_handler req w) = inr (report req rs).
Proof.
  intros Hget Hres.
  destruct (process_all _ _ _ _ tleList [] w1) as [[r w2] ev2] eqn:Hall.
  unfold result_of in Hres. simpl in Hres. subst r.
  now rewrite (coverage_handler_ok _ _ _ _ _ _ _ _ Hget Hall).
Qed.

(** The handler always answers, with status 200 or 500. *)
Lemma coverage_handler_cases req w :
  (exists e, result_of (getConstellationTLEs (params_constellation req) w) = inl e /\
             result_of (coverage_handler req w) = inr (failure e)) \/
  (exists tleList w1 ev1 rs w2 ev2,
      getConstellationTLEs (params_constellation req) w = (inr tleList, w1, ev1) /\
      process_all (params_constellation req)
                  (query_param (query req) "lat" (Fin 45.42))
                  (query_param (query req) "lng" (Fin (-75.7)))
                  (query_param (query req) "alt" (Fin 100)) tleList [] w1
      = (inr rs, w2, ev2) /\
      result_of (coverage_handler req w) = inr (report req rs)).
Proof.
  destruct (getConstellationTLEs (params_constellation req) w)
    as [[[e|tleList] w1] ev1] eqn:Hget.
  - left. exists e. split; [reflexivity|].
    now rewrite (coverage_handler_error _ _ _ _ _ Hget).
  - right.
    destruct (process_all_total (params_constellation req)
                (query_param (query req) "lat" (Fin 45.42))
                (query_param (query req) "lng" (Fin (-75.7)))
                (query_param (query req) "alt" (Fin 100)) tleList [] w1)
      as (rs & w2 & ev2 & Hall).
    exists tleList, w1, ev1, rs, w2, ev2. repeat split; auto.
    now rewrite (coverage_handler_ok _ _ _ _ _ _ _ _ Hget Hall).
Qed.

(** Every entry of a response is the entry of an observation. *)
Lemma coverage_handler_entries req w resp :
  result_of (coverage_handler req w) = inr resp ->
  forall entry, In entry (satellites_of resp) ->
  exists noradId o, entry = entry_of (params_constellation req) noradId o.
Proof.
  intros Hresp entry Hin.
  destruct (coverage_handler_cases req w)
    as [(e & _ & He) | (tleList & w1 & ev1 & rs & w2 & ev2 & _ & Hall & Hok)].
  - rewrite He in Hresp. injection Hresp as <-. contradiction.
  - rewrite Hok in Hresp. injection Hresp as <-.
    unfold satellites_of, report in Hin. simpl in Hin.
    destruct (process_all_entries _ _ _ _ _ _ _ _ _ _ Hall) as (added & Hrs & _ & Hforall).
    simpl in Hrs. subst rs.
    rewrite Forall_forall in Hforall.
    destruct (Hforall entry Hin) as (sat & o & _ & He).
    now exists (get "noradId" sat), o.
Qed.

(** The fields of an entry that do not depend on the range test. *)
Lemma entry_of_position constellation noradId o :
  let e := entry_of constellation noradId o in
  get "noradId" e = noradId /\
  get "lat" e = VNum (obs_lat o) /\
  get "lng" e = VNum (obs_lng o) /\
  get "altitudeKm" e = VNum (obs_height o) /\
  get "elevation" e = VNum (JsNum.toFixed1 (obs_elevation o)) /\
  get "coverageRadiusKm" e = VNum (coverageRadiusKmOf (obs_height o)).
Proof.
  unfold entry_of. destruct (in_range (obs_range o)); repeat split; reflexivity.
Qed.

End ResponseFacts.

(** ** Runs with the scripted library *)

Section SampleRuns.

Existing Instance sample_satellite_js.
Existing Instance sample_conversions.

Lemma observe_sample lat lng alt w :
  observe lat lng alt sample_record w = (inr (Some sample_observation), tick w, []).
Proof. reflexivity. Qed.

Lemma observe_decayed lat lng alt w :
  observe lat lng alt decayed_record w = (inr None, tick w, []).
Proof. reflexivity. Qed.

Lemma observe_broken lat lng alt w :
  observe lat lng alt broken_record w
  = (inl (JsError "mean motion less than 0.0"), tick w, []).
Proof. reflexivity. Qed.

Lemma observe_singular lat lng alt w :
  observe lat lng alt singular_record w = (inr (Some singular_observation), tick w, []).
Proof. reflexivity. Qed.

Lemma sample_response :
  result_of (coverage_handler sample_request fresh_world)
  = inr (report sample_request [sample_entry]).
Proof.
  apply (coverage_handler_result sample_request fresh_world [sample_record]
           (tick fresh_world) [ConsoleLog "Using cached starlink"]).
  - exact (get_fresh "starlink" "starlink" eq_refl fresh_world
             (mkFile sample_catalog 1000) eq_refl eq_refl).
  - rewrite process_all_single, process_satellite_result. reflexivity.
Qed.

End SampleRuns.

(* ================================================================== *)
(** * Claim about the cache under a failing fetch *)

(** C2.  When the fetch of a group fails (rejected request or blank body)
    the call leaves every file as it was; if the cache file of the group
    exists, the call returns the parse of its text; if it does not, the call
    throws the no-cache error and the handler answers with status 500 and an
    error body, without a list of satellites. *)
Theorem fetch_failure_falls_back :
  forall (sat_js : SatelliteJs) (conv : Conversions) constellation group q w,
  lookup constellation groups = Some group ->
  fetch_fails (network w (urlOf group)) = true ->
  let out := getConstellationTLEs constellation w in
  files (world_of out) = files w /\
  (forall f, lookup (cachePathOf group) (files w) = Some f ->
     result_of out = inr (parseTLEs (content f)) /\
     lookup (cachePathOf group) (files (world_of out)) = Some f) /\
  (lookup (cachePathOf group) (files w) = None ->
     result_of out = inl (no_cache_available group) /\
     result_of (coverage_handler (mkRequest constellation q) w)
     = inr (mkResponse 500
              (VObj [("error",
                      VStr ("Failed to fetch " ++ group ++ " and no cache available"))])) /\
     satellites_of (mkResponse 500
              (VObj [("error",
                      VStr ("Failed to fetch " ++ group ++ " and no cache available"))]))
     = []).
Proof.
  intros sat_js conv constellation group q w Hgroup Hfail out.
  destruct (stale group w) eqn:Hstale.
  - destruct (get_stale_fetch_fails constellation group Hgroup w Hstale Hfail)
      as (evs & _ & Hrun).
    assert (Hfiles : files (world_of out) = files w).
    { subst out. rewrite Hrun. apply files_world_at_fetch. }
    split; [exact Hfiles|]. split.
    + intros f Hf. rewrite Hfiles. split; [|exact Hf].
      subst out. rewrite Hrun, Hf. reflexivity.
    + intros Hnone. rewrite Hnone in Hrun. split; [|split].
      * subst out. now rewrite Hrun.
      * now rewrite (coverage_handler_error (mkRequest constellation q) w _ _ _ Hrun).
      * reflexivity.
  - destruct (stale_false_inv group w Hstale) as (f0 & Hf0 & Hage).
    pose proof (get_fresh constellation group Hgroup w f0 Hf0 Hage) as Hrun.
    assert (Hfiles : files (world_of out) = files w).
    { subst out. rewrite Hrun. reflexivity. }
    split; [exact Hfiles|]. split.
    + intros f Hf. rewrite Hfiles. split; [|exact Hf].
      subst out. rewrite Hrun. rewrite Hf in Hf0. injection Hf0 as <-. reflexivity.
    + intros Hnone. congruence.
Qed.

Lemma fetch_failure_falls_back_witness :
  let stale_w := sample_world (sample_cache_file 1000) 9000000
                              (HttpError "timeout of 10000ms exceeded") in
  let empty_w := sample_world [] 9000000 (HttpOk "  ") in
  (result_of (getConstellationTLEs "starlink" stale_w) = inr [sample_record] /\
   files (world_of (getConstellationTLEs "starlink" stale_w)) = sample_cache_file 1000) /\
  result_of (getConstellationTLEs "starlink" empty_w)
  = inl (JsError "Failed to fetch starlink and no cache available").
Proof.
  intros stale_w empty_w. split.
  - destruct (fetch_failure_falls_back sample_satellite_js sample_conversions
                "starlink" "starlink" [] stale_w eq_refl eq_refl) as (Hfiles & Hhit & _).
    split; [|exact Hfiles].
    apply (Hhit (mkFile sample_catalog 1000)). reflexivity.
  - destruct (fetch_failure_falls_back sample_satellite_js sample_conversions
                "starlink" "starlink" [] empty_w eq_refl eq_refl) as (_ & _ & Hmiss).
    apply Hmiss. reflexivity.
Defined.

(* ================================================================== *)
(** * Claim about the link budget *)

Lemma freqGHzOf_known constellation group :
  lookup constellation groups = Some group ->
  freqGHzOf constellation = Fin (frequency_GHz constellation) /\
  (0 < frequency_GHz constellation)%R.
Proof.
  unfold groups, freqGHzOf, freq_table, frequency_GHz. simpl lookup.
  destruct (String.eqb constellation "iridium"); [intros _; split; [reflexivity | lra]|].
  destruct (String.eqb constellation "starlink"); [intros _; split; [reflexivity | lra]|].
  destruct (String.eqb constellation "kuiper"); [intros _; split; [reflexivity | lra]|].
  discriminate.
Qed.

Lemma pathLossDbOf_finite constellation group r :
  lookup constellation groups = Some group -> (0 < r)%R ->
  pathLossDbOf constellation (Fin r) = Fin (path_loss_dB constellation r).
Proof.
  intros Hgroup Hr. destruct (freqGHzOf_known _ _ Hgroup) as [Hf Hpos].
  unfold pathLossDbOf. rewrite Hf, !log10_finite by assumption. reflexivity.
Qed.

(** The entry of an observation whose range is finite and positive. *)
Lemma entry_of_in_range constellation group noradId o r :
  lookup constellation groups = Some group ->
  obs_range o = Fin r -> (0 < r)%R ->
  let e := entry_of constellation noradId o in
  get "rangeKm" e = VNum (JsNum.round (Fin r)) /\
  get "pathLossDb" e = VNum (JsNum.round (Fin (path_loss_dB constellation r))) /\
  get "available" e
  = VBool ((obs_elevation o > Fin 10)%js
           && JsNum.Rltb (path_loss_dB constellation r) 160).
Proof.
  intros Hgroup Hrange Hr. unfold entry_of. rewrite Hrange, in_range_true by assumption.
  unfold entry_in_range. rewrite (pathLossDbOf_finite _ _ _ Hgroup Hr).
  repeat split; reflexivity.
Qed.

Lemma sample_path_loss : path_loss_dB "starlink" (2500 / 3) = 112.44%R.
Proof.
  unfold path_loss_dB, frequency_GHz. simpl.
  assert (H : (log10R (2500 / 3) + log10R 12.0 = 4)%R).
  { rewrite <- log10R_mult by lra.
    replace (2500 / 3 * 12.0)%R with (10 ^ 4)%R by lra.
    rewrite log10R_pow10. simpl. lra. }
  lra.
Qed.

Section LinkBudgetClaims.

Context {sat_js : SatelliteJs} {conv : Conversions}.

(** C3, amended.  For a satellite whose range is finite and positive the
    entry holds the path loss 32.44 + 20 log10(rangeKm) + 20 log10(freqGHz)
    rounded to the nearest integer (1.6 GHz for iridium, 12 GHz for
    starlink and kuiper), and [available] is true exactly when the
    elevation is above 10 degrees and the path loss, before rounding, is
    below 160 dB; it is false otherwise. *)
Theorem link_budget_in_range :
  forall constellation group lat lng alt results sat w o w1 evs r,
  lookup constellation groups = Some group ->
  observe lat lng alt sat w = (inr (Some o), w1, evs) ->
  obs_range o = Fin r -> (0 < r)%R ->
  exists entry available,
    result_of (process_satellite constellation lat lng alt results sat w)
    = inr (results ++ [entry]) /\
    get "pathLossDb" entry
    = VNum (Fin (IZR (Int_part (path_loss_dB constellation r + / 2)))) /\
    get "available" entry = VBool available /\
    (available = true <->
       (obs_elevation o > Fin 10)%js = true /\ (path_loss_dB constellation r < 160)%R).
Proof.
  intros constellation group lat lng alt results sat w o w1 evs r Hgroup Hobs Hrange Hr.
  destruct (entry_of_in_range constellation group (get "noradId" sat) o r
              Hgroup Hrange Hr) as (_ & Hloss & Havail).
  exists (entry_of constellation (get "noradId" sat) o),
         ((obs_elevation o > Fin 10)%js
          && JsNum.Rltb (path_loss_dB constellation r) 160).
  split; [|split; [exact Hloss | split; [exact Havail|]]].
  - rewrite process_satellite_result. unfold outcome_of. now rewrite Hobs.
  - rewrite andb_true_iff, Rltb_iff. reflexivity.
Qed.

End LinkBudgetClaims.

(** C3, as the claim states it, fails: the satellite of the sample catalog
    is 2500/3 km away, its path loss at 12 GHz is 112.44 dB, and the entry
    holds 112. *)
Lemma reported_path_loss_is_rounded :
  let entry := entry_of "starlink" (VNum (num_of_Z 44713)) sample_observation in
  result_of (process_satellite (sat_js := sample_satellite_js) (conv := sample_conversions)
               "starlink" (VStr "45.4200") (VStr "-75.7000") (VStr "100") []
               sample_record (sample_world [] 0 (HttpOk "")))
  = inr [entry] /\
  obs_range sample_observation = Fin (2500 / 3) /\
  get "pathLossDb" entry = VNum (Fin 112) /\
  get "pathLossDb" entry
  <> VNum (Fin (32.44 + 20 * log10R (2500 / 3) + 20 * log10R 12.0)).
Proof.
  intros entry.
  assert (Hloss : get "pathLossDb" entry = VNum (Fin 112)).
  { subst entry.
    destruct (entry_of_in_range "starlink" "starlink" (VNum (num_of_Z 44713))
                sample_observation (2500 / 3) eq_refl eq_refl ltac:(lra))
      as (_ & H & _).
    rewrite H, sample_path_loss. f_equal. apply round_finite. lra. }
  split; [|split; [reflexivity | split; [exact Hloss|]]].
  - rewrite process_satellite_result. reflexivity.
  - rewrite Hloss. intros H. injection H as H.
    change (32.44 + 20 * log10R (2500 / 3) + 20 * log10R 12.0)%R
      with (path_loss_dB "starlink" (2500 / 3)) in H.
    rewrite sample_path_loss in H. lra.
Qed.

Lemma link_budget_in_range_witness :
  exists entry available,
    result_of (process_satellite (sat_js := sample_satellite_js)
                 (conv := sample_conversions)
                 "starlink" (VStr "45.4200") (VStr "-75.7000") (VStr "100") []
                 sample_record (sample_world [] 0 (HttpOk "")))
    = inr ([] ++ [entry]) /\
    get "pathLossDb" entry
    = VNum (Fin (IZR (Int_part (path_loss_dB "starlink" (2500 / 3) + / 2)))) /\
    get "available" entry = VBool available /\
    (available = true <->
       (obs_elevation sample_observation > Fin 10)%js = true /\
       (path_loss_dB "starlink" (2500 / 3) < 160)%R).
Proof.
  apply (link_budget_in_range (sat_js := sample_satellite_js) (conv := sample_conversions)
           "starlink" "starlink" (VStr "45.4200") (VStr "-75.7000") (VStr "100") []
           sample_record (sample_world [] 0 (HttpOk "")) sample_observation
           (tick (sample_world [] 0 (HttpOk ""))) [] (2500 / 3)).
  - reflexivity.
  - reflexivity.
  - reflexivity.
  - lra.
Defined.

(* ================================================================== *)
(** * Claims about degenerate geometry, the coverage radius and failures *)

Section EntryClaims.

Context {sat_js : SatelliteJs} {conv : Conversions}.

(** C5.  When the library calls for an element set succeed and the range
    they give is not finite or not positive, the iteration pushes one entry
    with [rangeKm] and [pathLossDb] null and [available] false, which still
    holds the position, the elevation and the coverage radius. *)
Theorem degenerate_range_entry :
  forall constellation lat lng alt results sat w o w1 evs,
  observe lat lng alt sat w = (inr (Some o), w1, evs) ->
  degenerate (obs_range o) ->
  process_satellite constellation lat lng alt results sat w
  = (inr (results ++
          [VObj [("noradId", get "noradId" sat);
                 ("lat", VNum (obs_lat o));
                 ("lng", VNum (obs_lng o));
                 ("altitudeKm", VNum (obs_height o));
                 ("elevation", VNum (JsNum.toFixed1 (obs_elevation o)));
                 ("rangeKm", VNull);
                 ("pathLossDb", VNull);
                 ("coverageRadiusKm", VNum (coverageRadiusKmOf (obs_height o)));
                 ("available", VBool false)]]),
     w1, evs).
Proof.
  intros constellation lat lng alt results sat w o w1 evs Hobs Hdeg.
  apply in_range_false in Hdeg.
  rewrite process_satellite_run, Hobs. cbv zeta.
  unfold entry_of, progress_events. rewrite Hdeg. simpl andb. cbv iota.
  rewrite app_nil_r. reflexivity.
Qed.

(** C8.  Every entry of a response, whatever its elevation, range and
    availability, holds the altitude [h] the library gave and the coverage
    radius computed from it as R (acos (R cos e / (R + h)) - e) with
    R = 6371 and e = 10 degrees in radians; for an altitude that is finite
    and not negative this is the real number of that formula. *)
Theorem coverage_radius_of_every_entry :
  forall req w resp entry,
  result_of (coverage_handler req w) = inr resp ->
  In entry (satellites_of resp) ->
  exists h,
    get "altitudeKm" entry = VNum h /\
    get "coverageRadiusKm" entry
    = VNum (EARTH_RADIUS
            * (JsNum.acos (EARTH_RADIUS * JsNum.cos elevRad / (EARTH_RADIUS + h))
               - elevRad))%js /\
    elevRad = Fin (10 * Rtrigo1.PI / 180) /\
    (forall x, h = Fin x -> (0 <= x)%R ->
       get "coverageRadiusKm" entry
       = VNum (Fin (6371 * (Ratan.acos (6371 * Rtrigo_def.cos (10 * Rtrigo1.PI / 180)
                                        / (6371 + x))
                            - 10 * Rtrigo1.PI / 180)))).
Proof.
  intros req w resp entry Hresp Hin.
  destruct (coverage_handler_entries req w resp Hresp entry Hin) as (noradId & o & ->).
  destruct (entry_of_position (params_constellation req) noradId o)
    as (_ & _ & _ & Halt & _ & Hcov).
  exists (obs_height o). split; [exact Halt|]. split; [exact Hcov|].
  split; [exact elevRad_value|].
  intros x Hx Hpos. rewrite Hcov, Hx, coverageRadiusKmOf_finite by assumption.
  reflexivity.
Qed.

(** C4.  When the iteration for an element set fails (a library call
    throws, or the propagation gives no position), the iteration returns
    the results it was given, the loop goes on with the element sets that
    follow and completes, and the handler answers with status 200. *)
Theorem failure_is_isolated :
  forall constellation lat lng alt before sat after results w rs1 w1 ev1,
  process_all constellation lat lng alt before results w = (inr rs1, w1, ev1) ->
  outcome_of lat lng alt sat w1 = Omitted ->
  let w2 := world_of (observe lat lng alt sat w1) in
  result_of (process_satellite constellation lat lng alt rs1 sat w1) = inr rs1 /\
  result_of (process_all constellation lat lng alt (before ++ sat :: after) results w)
  = result_of (process_all constellation lat lng alt after rs1 w2) /\
  (exists rs, result_of (process_all constellation lat lng alt
                           (before ++ sat :: after) results w) = inr rs) /\
  (forall q w0 tleList w3 ev3,
     getConstellationTLEs constellation w0 = (inr tleList, w3, ev3) ->
     exists rs, result_of (coverage_handler (mkRequest constellation q) w0)
                = inr (report (mkRequest constellation q) rs)).
Proof.
  intros constellation lat lng alt before sat after results w rs1 w1 ev1 Hbefore Hfail w2.
  assert (Hone : result_of (process_satellite constellation lat lng alt rs1 sat w1)
                 = inr rs1).
  { rewrite process_satellite_result, Hfail. reflexivity. }
  split; [exact Hone|]. split; [|split].
  - rewrite (process_all_app _ _ _ _ before (sat :: after) _ _ _ _ _ Hbefore).
    unfold result_of at 1. simpl fst. simpl process_all.
    destruct (process_satellite constellation lat lng alt rs1 sat w1)
      as [[r wa] eva] eqn:Hps.
    unfold result_of in Hone. simpl in Hone. subst r.
    rewrite (bind_run _ _ _ _ _ _ Hps). unfold result_of at 1. simpl fst.
    pose proof (process_satellite_world constellation lat lng alt rs1 sat w1) as Hw.
    rewrite Hps in Hw. unfold world_of at 1 in Hw. simpl in Hw. subst wa.
    reflexivity.
  - destruct (process_all_total constellation lat lng alt (before ++ sat :: after)
                results w) as (rs & w' & evs & Hrun).
    exists rs. now rewrite Hrun.
  - intros q w0 tleList w3 ev3 Hget.
    destruct (coverage_handler_cases (mkRequest constellation q) w0)
      as [(e & He & _) | (tl & wa & eva & rs & wb & evb & _ & _ & Hok)].
    + simpl in He. rewrite Hget in He. discriminate He.
    + now exists rs.
Qed.

End EntryClaims.

Section EntryWitnesses.

Existing Instance sample_satellite_js.
Existing Instance sample_conversions.

Lemma degenerate_range_entry_witness :
  process_satellite (sat_js := sample_satellite_js) (conv := sample_conversions)
    "starlink" (VStr "45.4200") (VStr "-75.7000") (VStr "100") []
    singular_record (sample_world [] 0 (HttpOk ""))
  = (inr ([] ++
          [VObj [("noradId", get "noradId" singular_record);
                 ("lat", VNum (Fin 45.42));
                 ("lng", VNum (Fin (-75.7)));
                 ("altitudeKm", VNum (Fin 550));
                 ("elevation", VNum (JsNum.toFixed1 NaN));
                 ("rangeKm", VNull);
                 ("pathLossDb", VNull);
                 ("coverageRadiusKm", VNum (coverageRadiusKmOf (Fin 550)));
                 ("available", VBool false)]]),
     tick (sample_world [] 0 (HttpOk "")), []).
Proof.
  apply (degenerate_range_entry (sat_js := sample_satellite_js)
           (conv := sample_conversions) "starlink" (VStr "45.4200") (VStr "-75.7000")
           (VStr "100") [] singular_record (sample_world [] 0 (HttpOk ""))
           singular_observation).
  - reflexivity.
  - exact I.
Defined.

Lemma coverage_radius_of_every_entry_witness :
  exists h,
    get "altitudeKm" sample_entry = VNum h /\
    get "coverageRadiusKm" sample_entry
    = VNum (EARTH_RADIUS
            * (JsNum.acos (EARTH_RADIUS * JsNum.cos elevRad / (EARTH_RADIUS + h))
               - elevRad))%js /\
    elevRad = Fin (10 * Rtrigo1.PI / 180) /\
    (forall x, h = Fin x -> (0 <= x)%R ->
       get "coverageRadiusKm" sample_entry
       = VNum (Fin (6371 * (Ratan.acos (6371 * Rtrigo_def.cos (10 * Rtrigo1.PI / 180)
                                        / (6371 + x))
                            - 10 * Rtrigo1.PI / 180)))).
Proof.
  apply (coverage_radius_of_every_entry (sat_js := sample_satellite_js)
           (conv := sample_conversions) sample_request fresh_world
           (report sample_request [sample_entry]) sample_entry).
  - exact sample_response.
  - left. reflexivity.
Defined.

Lemma process_all_sample lat lng alt w :
  process_all "starlink" lat lng alt [sample_record] [] w
  = (inr [sample_entry], tick w,
     progress_events "starlink" [sample_entry] sample_observation ++ []).
Proof.
  simpl process_all.
  assert (Hone : process_satellite "starlink" lat lng alt [] sample_record w
                 = (inr [sample_entry], tick w,
                    progress_events "starlink" [sample_entry] sample_observation)).
  { rewrite process_satellite_run, observe_sample. reflexivity. }
  rewrite (bind_run _ _ _ _ _ _ Hone). reflexivity.
Qed.

Lemma failure_is_isolated_witness :
  result_of (process_satellite "starlink" (VStr "45.4200") (VStr "-75.7000") (VStr "100")
               [sample_entry] broken_record (tick fresh_world))
  = inr [sample_entry] /\
  exists rs,
    result_of (process_all "starlink" (VStr "45.4200") (VStr "-75.7000") (VStr "100")
                 ([sample_record] ++ broken_record :: [decayed_record; sample_record])
                 [] fresh_world) = inr rs.
Proof.
  destruct (failure_is_isolated
              "starlink" (VStr "45.4200") (VStr "-75.7000") (VStr "100")
              [sample_record] broken_record [decayed_record; sample_record]
              [] fresh_world [sample_entry] (tick fresh_world)
              (progress_events "starlink" [sample_entry] sample_observation ++ [])
              (process_all_sample _ _ _ fresh_world) eq_refl)
    as (Hsame & _ & Hdone & _).
  split; [exact Hsame | exact Hdone].
Defined.

End EntryWitnesses.

(* ================================================================== *)
(** * The query parameters the handler reads *)

Lemma lookup_without k k' (q : list (string * string)) :
  String.eqb k k' = false -> lookup k (without k' q) = lookup k q.
Proof.
  intros Hne. induction q as [|[k0 v] q IH]; simpl; [reflexivity|].
  destruct (String.eqb_spec k0 k') as [->|Hk0]; simpl.
  - rewrite Hne. exact IH.
  - destruct (String.eqb k k0); [reflexivity | exact IH].
Qed.

Lemma lookup_without_maxSats k (q1 q2 : list (string * string)) :
  String.eqb k "maxSats" = false ->
  without "maxSats" q1 = without "maxSats" q2 ->
  lookup k q1 = lookup k q2.
Proof.
  intros Hk Hq. rewrite <- (lookup_without k "maxSats" q1 Hk), Hq.
  now apply lookup_without.
Qed.

Section QueryClaims.

Context {sat_js : SatelliteJs} {conv : Conversions}.

(** C10.  Two requests for the same constellation whose queries differ
    only in [maxSats] (its value, or whether it is there) get the same
    answer in the same world: the same response, the same world left
    behind and the same events; and whatever [maxSats] says, a response
    lists at most the 30 element sets the parser keeps. *)
Theorem maxSats_is_ignored :
  forall constellation q1 q2 w,
  without "maxSats" q1 = without "maxSats" q2 ->
  coverage_handler (mkRequest constellation q1) w
  = coverage_handler (mkRequest constellation q2) w /\
  (forall resp,
     result_of (coverage_handler (mkRequest constellation q1) w) = inr resp ->
     (List.length (satellites_of resp) <= 30)%nat).
Proof.
  intros constellation q1 q2 w Hq. split.
  - unfold coverage_handler, query_param. simpl query. simpl params_constellation.
    rewrite (lookup_without_maxSats "lat" q1 q2 eq_refl Hq).
    rewrite (lookup_without_maxSats "lng" q1 q2 eq_refl Hq).
    rewrite (lookup_without_maxSats "alt" q1 q2 eq_refl Hq).
    reflexivity.
  - intros resp Hresp.
    destruct (coverage_handler_cases (mkRequest constellation q1) w)
      as [(e & _ & He) | (tleList & w1 & ev1 & rs & w2 & ev2 & Hget & Hall & Hok)].
    + rewrite He in Hresp. injection Hresp as <-. simpl. lia.
    + rewrite Hok in Hresp. injection Hresp as <-.
      unfold satellites_of, report. simpl.
      destruct (process_all_entries _ _ _ _ _ _ _ _ _ _ Hall) as (added & -> & Hlen & _).
      simpl. simpl in Hget.
      destruct (getConstellationTLEs_parsed constellation w tleList) as [tleText ->].
      { now rewrite Hget. }
      unfold parseTLEs in Hlen.
      pose proof (firstn_le_length 30
                    (parse_loop (List.length (tle_lines tleText))
                                (tle_lines tleText) 0 [])).
      lia.
Qed.

End QueryClaims.

Lemma maxSats_is_ignored_witness :
  coverage_handler (sat_js := sample_satellite_js) (conv := sample_conversions)
    sample_request fresh_world
  = coverage_handler (sat_js := sample_satellite_js) (conv := sample_conversions)
      (mkRequest "starlink" [("lat", "45.4200"); ("lng", "-75.7000"); ("alt", "100")])
      fresh_world.
Proof.
  apply (maxSats_is_ignored (sat_js := sample_satellite_js) (conv := sample_conversions)
           "starlink" (query sample_request)
           [("lat", "45.4200"); ("lng", "-75.7000"); ("alt", "100")] fresh_world).
  reflexivity.
Defined.

(* ================================================================== *)
(** * Further properties of the TLE cache *)

Lemma lookup_put_same path f fs : lookup path (Fs.put path f fs) = Some f.
Proof.
  induction fs as [|[p g] fs IH]; simpl.
  - now rewrite String.eqb_refl.
  - destruct (String.eqb path p) eqn:E; simpl; rewrite E; [reflexivity | exact IH].
Qed.

Lemma lookup_put_other path p f fs :
  p <> path -> lookup p (Fs.put path f fs) = lookup p fs.
Proof.
  intros Hne. induction fs as [|[p0 g] fs IH]; simpl.
  - destruct (String.eqb_spec p path); [contradiction | reflexivity].
  - destruct (String.eqb_spec path p0) as [->|Hp0]; simpl.
    + destruct (String.eqb_spec p p0); [contradiction | reflexivity].
    + destruct (String.eqb p p0); [reflexivity | exact IH].
Qed.

Lemma http_requests_app evs1 evs2 :
  http_requests (evs1 ++ evs2) = http_requests evs1 ++ http_requests evs2.
Proof.
  induction evs1 as [|e evs1 IH]; simpl; [reflexivity|].
  destruct e; simpl; rewrite ?IH; reflexivity.
Qed.

(** The three ways a call for a known group can go. *)
Lemma getConstellationTLEs_cases constellation group w :
  lookup constellation groups = Some group ->
  let out := getConstellationTLEs constellation w in
  (stale group w = false /\
   exists f, lookup (cachePathOf group) (files w) = Some f /\
     out = (inr (parseTLEs (content f)), tick w,
            [ConsoleLog ("Using cached " ++ group)])) \/
  (stale group w = true /\ fetch_fails (network w (urlOf group)) = true /\
   exists evs, http_requests evs = [urlOf group] /\
     out = (match lookup (cachePathOf group) (files w) with
            | Some f => inr (parseTLEs (content f))
            | None => inl (no_cache_available group)
            end, world_at_fetch group w, evs)) \/
  (stale group w = true /\
   exists data evs, network w (urlOf group) = HttpOk data /\ blank_body data = false /\
     http_requests evs = [urlOf group] /\
     out = (inr (parseTLEs data), written group (world_at_fetch group w) data, evs)).
Proof.
  intros Hgroup out. subst out.
  destruct (stale group w) eqn:Hstale.
  - destruct (fetch_fails (network w (urlOf group))) eqn:Hfail.
    + right; left. repeat split; auto.
      exact (get_stale_fetch_fails constellation group Hgroup w Hstale Hfail).
    + right; right. split; [reflexivity|].
      destruct (network w (urlOf group)) as [msg|data] eqn:Hnet; [discriminate|].
      destruct (get_stale_fetch_ok constellation group Hgroup w data Hstale Hnet Hfail)
        as (evs & Hreq & Hrun).
      exists data, evs. auto.
  - left. split; [reflexivity|].
    destruct (stale_false_inv group w Hstale) as (f & Hf & Hage).
    exists f. split; [exact Hf|].
    exact (get_fresh constellation group Hgroup w f Hf Hage).
Qed.

(** X1.  A constellation that is not one of the three groups is rejected
    before anything else happens: the call throws, reads no clock, touches no
    file and requests nothing, the message names the constellation unless it
    is a property every object inherits, and the handler answers with
    status 500 and that message. *)
Theorem unknown_constellation_rejected :
  forall (sat_js : SatelliteJs) (conv : Conversions) constellation q w,
  lookup constellation groups = None ->
  exists e,
    getConstellationTLEs constellation w = (inl e, w, []) /\
    (inherited constellation = false ->
     e = JsError ("Unknown constellation: " ++ constellation)) /\
    coverage_handler (mkRequest constellation q) w
    = (inr (mkResponse 500 (VObj [("error", VStr (message e))])), w, []).
Proof.
  intros sat_js conv constellation q w Hnone.
  assert (Hrun : exists e,
             getConstellationTLEs constellation w = (inl e, w, []) /\
             (inherited constellation = false ->
              e = JsError ("Unknown constellation: " ++ constellation))).
  { unfold getConstellationTLEs. rewrite Hnone.
    destruct (inherited constellation); eexists; split; try reflexivity.
    discriminate. }
  destruct Hrun as (e & Hrun & Hmsg). exists e. repeat split; auto.
  now rewrite (coverage_handler_error (mkRequest constellation q) w e w [] Hrun).
Qed.

Lemma unknown_constellation_rejected_witness :
  exists e,
    getConstellationTLEs "gps" fresh_world = (inl e, fresh_world, []) /\
    (inherited "gps" = false -> e = JsError ("Unknown constellation: " ++ "gps")) /\
    coverage_handler (sat_js := sample_satellite_js) (conv := sample_conversions)
      (mkRequest "gps" []) fresh_world
    = (inr (mkResponse 500 (VObj [("error", VStr (message e))])), fresh_world, []).
Proof.
  apply (unknown_constellation_rejected sample_satellite_js sample_conversions
           "gps" [] fresh_world).
  reflexivity.
Defined.





(** X4.  For a known group the call requests the URL of the group exactly
    once when the cache file is missing or its age is above two hours, and
    requests nothing otherwise; it never requests any other URL. *)
Theorem http_requests_of_call :
  forall constellation group w,
  lookup constellation groups = Some group ->
  http_requests (events_of (getConstellationTLEs constellation w))
  = match lookup (cachePathOf group) (files w) with
    | None => [urlOf group]
    | Some f =>
        if (clock w (ticks w) - mtimeMs f >? MIN_REFRESH_MS)%Z then [urlOf group] else []
    end.
Proof.
  intros constellation group w Hgroup.
  destruct (getConstellationTLEs_cases constellation group w Hgroup)
    as [(Hstale & f & Hf & Hrun)
       | [(Hstale & _ & evs & Hreq & Hrun)
         | (Hstale & data & evs & _ & _ & Hreq & Hrun)]];
    rewrite Hrun; unfold events_of; simpl snd; unfold stale in Hstale;
    destruct (lookup (cachePathOf group) (files w)); try discriminate;
    rewrite ?Hstale; auto.
Qed.

Lemma http_requests_of_call_witness :
  http_requests (events_of (getConstellationTLEs "starlink"
     (sample_world (sample_cache_file 0) 7200001 (HttpOk ""))))
  = ["https://celestrak.org/NORAD/elements/gp.php?GROUP=STARLINK&FORMAT=TLE"] /\
  http_requests (events_of (getConstellationTLEs "starlink"
     (sample_world (sample_cache_file 0) 7200000 (HttpOk "")))) = [].
Proof.
  split.
  - exact (http_requests_of_call "starlink" "starlink"
             (sample_world (sample_cache_file 0) 7200001 (HttpOk "")) eq_refl).
  - exact (http_requests_of_call "starlink" "starlink"
             (sample_world (sample_cache_file 0) 7200000 (HttpOk "")) eq_refl).
Defined.

(** X5.  Whatever the constellation, the world and the answer of the
    network, a call deletes no file, changes no file other than the cache
    file of its group, and leaves the clock and the network as they are. *)
Theorem cache_keeps_other_files :
  forall constellation w p,
  let w' := world_of (getConstellationTLEs constellation w) in
  (forall f, lookup p (files w) = Some f -> exists f', lookup p (files w') = Some f') /\
  ((forall group, lookup constellation groups = Some group -> p <> cachePathOf group) ->
   lookup p (files w') = lookup p (files w)) /\
  clock w' = clock w /\ network w' = network w.
Proof.
  intros constellation w p w'.
  destruct (lookup constellation groups) as [group|] eqn:Hgroup.
  - assert (Hclock : clock (world_at_fetch group w) = clock w)
      by (unfold world_at_fetch; now destruct (lookup _ (files w))).
    pose proof (files_world_at_fetch group w) as Hfiles.
    pose proof (network_world_at_fetch group w) as Hnetw.
    destruct (getConstellationTLEs_cases constellation group w Hgroup)
      as [(_ & f & _ & Hrun)
         | [(_ & _ & evs & _ & Hrun)
           | (_ & data & evs & _ & _ & _ & Hrun)]];
      subst w'; rewrite Hrun; unfold world_of; simpl.
    + repeat split; eauto.
    + rewrite Hfiles. repeat split; eauto.
    + repeat split; auto.
      * intros f Hf. destruct (string_dec p (cachePathOf group)) as [->|Hne].
        -- rewrite lookup_put_same. eauto.
        -- rewrite lookup_put_other, Hfiles by exact Hne. eauto.
      * intros Hp. rewrite lookup_put_other, Hfiles by (apply Hp; reflexivity).
        reflexivity.
  - destruct (unknown_constellation_run constellation w Hgroup) as [e Hrun].
    subst w'. rewrite Hrun. unfold world_of. simpl. repeat split; eauto.
Qed.

Lemma cache_keeps_other_files_witness :
  let w := sample_world (("tle-cache/iridium.tle", mkFile "kept" 5) :: sample_cache_file 0)
                        9000000 (HttpOk sample_catalog) in
  lookup "tle-cache/iridium.tle" (files (world_of (getConstellationTLEs "starlink" w)))
  = Some (mkFile "kept" 5).
Proof.
  intros w.
  destruct (cache_keeps_other_files "starlink" w "tle-cache/iridium.tle")
    as (_ & Hframe & _).
  rewrite Hframe; [reflexivity|].
  intros group Hgroup. injection Hgroup as <-. discriminate.
Defined.

(* ================================================================== *)
(** * Further properties of the request handler *)

Section HandlerEffects.

Context {sat_js : SatelliteJs} {conv : Conversions}.

(** The library calls read the clock at most once and do nothing else. *)
Lemma observe_effects lat lng alt sat w :
  let out := observe lat lng alt sat w in
  files (world_of out) = files w /\ clock (world_of out) = clock w /\
  network (world_of out) = network w /\ events_of out = [].
Proof.
  unfold observe, bind, Date_now, ret, lift, world_of, events_of. cbv beta iota zeta.
  destruct (twoline2satrec _ _) as [e|satrec]; cbv beta iota; [simpl; auto|].
  destruct (propagate _ _) as [e|[|[position|]]]; cbv beta iota; try (simpl; auto; fail).
  destruct (gstime _) as [e|gmst]; cbv beta iota; [simpl; auto|].
  destruct (eciToGeodetic _ _) as [e|geo]; cbv beta iota; [simpl; auto|].
  destruct (degreesLat _) as [e|satLat]; cbv beta iota; [simpl; auto|].
  destruct (degreesLong _) as [e|satLng]; cbv beta iota; [simpl; auto|].
  destruct (degreesToRadians lng) as [e|obsLng]; cbv beta iota; [simpl; auto|].
  destruct (degreesToRadians lat) as [e|obsLat]; cbv beta iota; [simpl; auto|].
  destruct (eciToEcf _ _) as [e|satEcf]; cbv beta iota; [simpl; auto|].
  destruct (ecfToLookAngles _ _) as [e|l]; cbv beta iota; [simpl; auto|].
  destruct (radiansToDegrees _) as [e|elevationDeg]; cbv beta iota; simpl; auto.
Qed.

Lemma progress_events_no_request constellation results o :
  http_requests (progress_events constellation results o) = [].
Proof.
  unfold progress_events. now destruct (in_range (obs_range o) && _).
Qed.

Lemma process_satellite_effects constellation lat lng alt results sat w :
  let out := process_satellite constellation lat lng alt results sat w in
  files (world_of out) = files w /\ clock (world_of out) = clock w /\
  network (world_of out) = network w /\ http_requests (events_of out) = [].
Proof.
  cbv zeta. rewrite process_satellite_run.
  destruct (observe_effects lat lng alt sat w) as (Hf & Hc & Hn & He).
  destruct (observe lat lng alt sat w) as [[[e|[o|]] w1] evs];
    unfold world_of, events_of in *; simpl in *; subst evs; simpl;
    rewrite ?progress_events_no_request; auto.
Qed.

Lemma process_all_effects constellation lat lng alt tleList :
  forall results w,
  let out := process_all constellation lat lng alt tleList results w in
  files (world_of out) = files w /\ clock (world_of out) = clock w /\
  network (world_of out) = network w /\ http_requests (events_of out) = [].
Proof.
  induction tleList as [|sat rest IH]; intros results w; cbv zeta; simpl.
  - auto.
  - destruct (process_satellite_effects constellation lat lng alt results sat w)
      as (Hf & Hc & Hn & He).
    pose proof (process_satellite_result constellation lat lng alt results sat w) as Hr.
    destruct (process_satellite constellation lat lng alt results sat w)
      as [[r w1] ev1] eqn:Hone.
    unfold result_of, world_of, events_of in Hr, Hf, Hc, Hn, He. simpl in *. subst r.
    rewrite (bind_run _ _ _ _ _ _ Hone).
    match goal with
    | |- context [process_all _ _ _ _ rest ?rs w1] =>
        destruct (IH rs w1) as (Hf' & Hc' & Hn' & He')
    end.
    unfold world_of, events_of in *. simpl.
    rewrite http_requests_app, He, He'. simpl.
    repeat split; congruence.
Qed.

(** X6.  Answering a coverage request changes the files and requests the
    URLs that its lookup of the element sets does, and nothing more: the
    loop over the satellites reads the clock and writes to the console only.
    A request thus makes at most one HTTP request. *)
Theorem coverage_request_io :
  forall req w,
  let fetched := getConstellationTLEs (params_constellation req) w in
  let out := coverage_handler req w in
  files (world_of out) = files (world_of fetched) /\
  http_requests (events_of out) = http_requests (events_of fetched) /\
  (List.length (http_requests (events_of out)) <= 1)%nat.
Proof.
  intros req w fetched out.
  assert (Hle : (List.length (http_requests (events_of fetched)) <= 1)%nat).
  { subst fetched.
    destruct (lookup (params_constellation req) groups) as [group|] eqn:Hgroup.
    - destruct (getConstellationTLEs_cases _ group w Hgroup)
        as [(_ & f & _ & Hrun)
           | [(_ & _ & evs & Hreq & Hrun)
             | (_ & data & evs & _ & _ & Hreq & Hrun)]];
        rewrite Hrun; unfold events_of; simpl snd; rewrite ?Hreq; simpl; lia.
    - destruct (unknown_constellation_run _ w Hgroup) as [e Hrun].
      rewrite Hrun. simpl. lia. }
  assert (Hsame : files (world_of out) = files (world_of fetched) /\
                  http_requests (events_of out) = http_requests (events_of fetched)).
  { subst out fetched.
    destruct (getConstellationTLEs (params_constellation req) w)
      as [[[e|tleList] w1] ev1] eqn:Hget.
    - rewrite (coverage_handler_error _ _ _ _ _ Hget).
      unfold world_of, events_of. simpl. now rewrite app_nil_r.
    - destruct (process_all_effects (params_constellation req)
                  (query_param (query req) "lat" (Fin 45.42))
                  (query_param (query req) "lng" (Fin (-75.7)))
                  (query_param (query req) "alt" (Fin 100)) tleList [] w1)
        as (Hf & _ & _ & He).
      destruct (process_all _ _ _ _ tleList [] w1) as [[r w2] ev2] eqn:Hall.
      destruct (process_all_total (params_constellation req)
                  (query_param (query req) "lat" (Fin 45.42))
                  (query_param (query req) "lng" (Fin (-75.7)))
                  (query_param (query req) "alt" (Fin 100)) tleList [] w1)
        as (rs & w2' & ev2' & Hall').
      rewrite Hall in Hall'. injection Hall' as -> <- <-.
      rewrite (coverage_handler_ok _ _ _ _ _ _ _ _ Hget Hall).
      unfold world_of, events_of in *. simpl in *.
      rewrite !http_requests_app, He. simpl. now rewrite app_nil_r. }
  destruct Hsame as [Hf Hr]. repeat split; auto. now rewrite Hr.
Qed.

End HandlerEffects.

Section ReportShape.

Context {sat_js : SatelliteJs} {conv : Conversions}.



Lemma in_range_inv rangeKm :
  in_range rangeKm = true -> exists r, rangeKm = Fin r /\ (0 < r)%R.
Proof.
  unfold in_range, JsNum.gt. destruct rangeKm as [r| | |]; simpl; try discriminate.
  intros H. exists r. split; [reflexivity | now apply Rltb_iff].
Qed.

(** X8.  Every entry of a response has the same nine properties in the
    same order; [available] is a boolean; [rangeKm] is null exactly when
    [pathLossDb] is null, and then [available] is false; a [rangeKm] that is
    not null is a whole number that is not negative. *)
Theorem response_entry_shape :
  forall req w resp entry,
  result_of (coverage_handler req w) = inr resp ->
  In entry (satellites_of resp) ->
  keys entry = entry_keys /\
  (exists b, get "available" entry = VBool b) /\
  (get "rangeKm" entry = VNull <-> get "pathLossDb" entry = VNull) /\
  (get "rangeKm" entry = VNull -> get "available" entry = VBool false) /\
  (get "rangeKm" entry = VNull \/
   exists n, (0 <= n)%Z /\ get "rangeKm" entry = VNum (num_of_Z n)).
Proof.
  intros req w resp entry Hresp Hin.
  destruct (coverage_handler_entries req w resp Hresp entry Hin) as (noradId & o & ->).
  unfold entry_of. destruct (in_range (obs_range o)) eqn:Hrange.
  - destruct (in_range_inv _ Hrange) as (r & Hr & Hpos).
    split; [reflexivity|]. split; [eexists; reflexivity|].
    split; [split; discriminate|]. split; [discriminate|].
    right. exists (Int_part (r + / 2)). split.
    + destruct (base_Int_part (r + / 2)) as [_ Hlow].
      assert (IZR (-1) < IZR (Int_part (r + / 2)))%R by (simpl; lra).
      apply lt_IZR in H. lia.
    + simpl. rewrite Hr. reflexivity.
  - split; [reflexivity|]. split; [eexists; reflexivity|].
    split; [split; reflexivity|]. split; [reflexivity|]. now left.
Qed.

(** X9.  The handler always answers and lets no exception out: with
    status 200 and a [satellites] array when the lookup of the element sets
    returned a list, with status 500 and the message of the error as the only
    property of the body when the lookup threw. *)
Theorem handler_always_answers :
  forall req w,
  exists resp,
    result_of (coverage_handler req w) = inr resp /\
    match result_of (getConstellationTLEs (params_constellation req) w) with
    | inr tleList =>
        status resp = 200%Z /\
        (exists rs, get "satellites" (body resp) = VArr rs /\
                    (List.length rs <= List.length tleList)%nat) /\
        get "error" (body resp) = VUndefined
    | inl e =>
        status resp = 500%Z /\ body resp = VObj [("error", VStr (message e))]
    end.
Proof.
  intros req w.
  destruct (coverage_handler_cases req w)
    as [(e & He & Hfail) | (tl & wa & eva & rs & wb & evb & Hget & Hall & Hok)].
  - exists (failure e). split; [exact Hfail|]. rewrite He. split; reflexivity.
  - exists (report req rs). split; [exact Hok|]. rewrite Hget.
    unfold result_of. simpl fst. split; [reflexivity|]. split; [|reflexivity].
    exists rs. split; [reflexivity|].
    destruct (process_all_entries _ _ _ _ _ _ _ _ _ _ Hall) as (added & -> & Hlen & _).
    exact Hlen.
Qed.

End ReportShape.

Section ReportShapeWitnesses.

Existing Instance sample_satellite_js.
Existing Instance sample_conversions.


Lemma response_entry_shape_witness :
  keys sample_entry = entry_keys /\
  (exists b, get "available" sample_entry = VBool b) /\
  (get "rangeKm" sample_entry = VNull <-> get "pathLossDb" sample_entry = VNull) /\
  (get "rangeKm" sample_entry = VNull -> get "available" sample_entry = VBool false) /\
  (get "rangeKm" sample_entry = VNull \/
   exists n, (0 <= n)%Z /\ get "rangeKm" sample_entry = VNum (num_of_Z n)).
Proof.
  apply (response_entry_shape sample_request fresh_world
           (report sample_request [sample_entry]) sample_entry).
  - exact sample_response.
  - left. reflexivity.
Defined.

End ReportShapeWitnesses.

(* ================================================================== *)
(** * Further properties of the link budget and the coverage radius *)

Section NumericExtras.

Local Open Scope R_scope.

Lemma Int_part_bounds x : IZR (Int_part x) <= x < IZR (Int_part x) + 1.
Proof. destruct (base_Int_part x) as [H1 H2]. split; lra. Qed.


Lemma Int_part_ge_IZR x z : IZR z <= x -> (z <= Int_part x)%Z.
Proof.
  intros Hz. pose proof (Int_part_bounds x).
  assert (IZR z < IZR (Int_part x + 1)) by (rewrite plus_IZR; lra).
  apply lt_IZR in H0. lia.
Qed.

Lemma Int_part_lt_IZR x z : x < IZR z -> (Int_part x < z)%Z.
Proof.
  intros Hz. pose proof (Int_part_bounds x).
  apply lt_IZR. lra.
Qed.

(** Rounding to the nearest integer moves a real by at most one half. *)
Lemma round_error x : Rabs (IZR (Int_part (x + / 2)) - x) <= / 2.
Proof.
  pose proof (Int_part_bounds (x + / 2)). apply Rabs_le. lra.
Qed.



Lemma elev_bounds : 0 < 10 * Rtrigo1.PI / 180 < Rtrigo1.PI / 2.
Proof. pose proof PI_RGT_0. split; lra. Qed.

Lemma cos_elev_bounds : 0 < Rtrigo_def.cos (10 * Rtrigo1.PI / 180) <= 1.
Proof.
  pose proof elev_bounds. split.
  - apply cos_gt_0; lra.
  - apply COS_bound.
Qed.



End NumericExtras.



Section RoundingExtras.

Local Open Scope R_scope.

Lemma Rltb_false_aux a b : ~ a < b -> JsNum.Rltb a b = false.
Proof. intros H. unfold JsNum.Rltb. destruct (Rlt_dec a b); [contradiction | reflexivity]. Qed.

(** One decimal: the value moves by at most 0.05 and does not cross 10
    downwards. *)
Lemma toFixed1_close x :
  exists y, JsNum.toFixed1 (Fin x) = Fin y /\ Rabs (y - x) <= / 20 /\ (10 < x -> 10 <= y).
Proof.
  unfold JsNum.toFixed1.
  destruct (JsNum.Rltb (Rabs x) (10 ^ 21)).
  - destruct (Rlt_dec x 0) as [Hneg|Hpos].
    + rewrite (Rltb_true x 0 Hneg), (Rabs_left x Hneg).
      pose proof (Int_part_bounds (- x * 10 + / 2)) as Hb.
      eexists. split; [reflexivity|]. split; [apply Rabs_le; lra | lra].
    + rewrite (Rltb_false_aux x 0 Hpos), (Rabs_right x) by lra.
      pose proof (Int_part_bounds (x * 10 + / 2)) as Hb.
      eexists. split; [reflexivity|]. split; [apply Rabs_le; lra|].
      intros H10.
      assert (100 <= Int_part (x * 10 + / 2))%Z by (apply Int_part_ge_IZR; lra).
      apply IZR_le in H. lra.
  - exists x. split; [reflexivity|]. split; [|lra].
    replace (x - x) with 0 by ring. rewrite Rabs_R0. lra.
Qed.

End RoundingExtras.

Section ReportedValues.

Context {sat_js : SatelliteJs} {conv : Conversions}.

(** X11.  For a satellite whose range and elevation are finite and whose
    range is positive, the entry differs from what was computed by at most
    0.5 km in [rangeKm], 0.5 dB in [pathLossDb] and 0.05 degree in
    [elevation]; and when the entry is [available], the elevation it shows is
    at least 10 and the path loss it shows is at most 160. *)
Theorem reported_values_are_close :
  forall constellation group lat lng alt results sat w o w1 evs r el,
  lookup constellation groups = Some group ->
  observe lat lng alt sat w = (inr (Some o), w1, evs) ->
  obs_range o = Fin r -> (0 < r)%R ->
  obs_elevation o = Fin el ->
  exists entry range loss elev,
    result_of (process_satellite constellation lat lng alt results sat w)
    = inr (results ++ [entry]) /\
    get "rangeKm" entry = VNum (Fin range) /\
    get "pathLossDb" entry = VNum (Fin loss) /\
    get "elevation" entry = VNum (Fin elev) /\
    (Rabs (range - r) <= / 2)%R /\
    (Rabs (loss - path_loss_dB constellation r) <= / 2)%R /\
    (Rabs (elev - el) <= / 20)%R /\
    (get "available" entry = VBool true -> (10 <= elev)%R /\ (loss <= 160)%R).
Proof.
  intros constellation group lat lng alt results sat w o w1 evs r el
    Hgroup Hobs Hrange Hr Hel.
  destruct (entry_of_in_range constellation group (get "noradId" sat) o r
              Hgroup Hrange Hr) as (Hkm & Hloss & Havail).
  destruct (entry_of_position constellation (get "noradId" sat) o)
    as (_ & _ & _ & _ & Helev & _).
  rewrite Hel in Helev, Havail.
  destruct (toFixed1_close el) as (y & Hy & Hclose & Hten).
  exists (entry_of constellation (get "noradId" sat) o),
         (IZR (Int_part (r + / 2))),
         (IZR (Int_part (path_loss_dB constellation r + / 2))), y.
  split; [rewrite process_satellite_result; unfold outcome_of; now rewrite Hobs|].
  split; [exact Hkm|]. split; [exact Hloss|].
  split; [now rewrite Helev, Hy|].
  split; [apply round_error|]. split; [apply round_error|]. split; [exact Hclose|].
  intros Htrue. rewrite Havail in Htrue. injection Htrue as Htrue.
  apply andb_prop in Htrue. destruct Htrue as [Hgt Hlt].
  unfold JsNum.gt in Hgt. simpl in Hgt.
  apply Rltb_iff in Hgt. apply Rltb_iff in Hlt. split; [now apply Hten|].
  assert (Int_part (path_loss_dB constellation r + / 2) < 161)%Z
    by (apply Int_part_lt_IZR; lra).
  assert (Int_part (path_loss_dB constellation r + / 2) <= 160)%Z by lia.
  now apply IZR_le in H0.
Qed.

End ReportedValues.

Lemma reported_values_are_close_witness :
  exists entry range loss elev,
    result_of (process_satellite (sat_js := sample_satellite_js)
                 (conv := sample_conversions)
                 "starlink" (VStr "45.4200") (VStr "-75.7000") (VStr "100") []
                 sample_record (sample_world [] 0 (HttpOk "")))
    = inr ([] ++ [entry]) /\
    get "rangeKm" entry = VNum (Fin range) /\
    get "pathLossDb" entry = VNum (Fin loss) /\
    get "elevation" entry = VNum (Fin elev) /\
    (Rabs (range - 2500 / 3) <= / 2)%R /\
    (Rabs (loss - path_loss_dB "starlink" (2500 / 3)) <= / 2)%R /\
    (Rabs (elev - 38.5) <= / 20)%R /\
    (get "available" entry = VBool true -> (10 <= elev)%R /\ (loss <= 160)%R).
Proof.
  apply (reported_values_are_close (sat_js := sample_satellite_js)
           (conv := sample_conversions)
           "starlink" "starlink" (VStr "45.4200") (VStr "-75.7000") (VStr "100") []
           sample_record (sample_world [] 0 (HttpOk "")) sample_observation
           (tick (sample_world [] 0 (HttpOk ""))) [] (2500 / 3) 38.5).
  - reflexivity.
  - reflexivity.
  - reflexivity.
  - lra.
  - reflexivity.
Defined.



(** X13.  Altitudes off the usual range: for an altitude that is NaN, or
    that puts the satellite between the centre of the Earth and
    6371 cos(10 degrees) km from it, the coverage radius is NaN; for an
    infinite altitude it is 6371 (pi/2 - 10 pi/180). *)
Theorem coverage_radius_off_range :
  coverageRadiusKmOf NaN = NaN /\
  coverageRadiusKmOf PosInf = Fin (6371 * (Rtrigo1.PI / 2 - 10 * Rtrigo1.PI / 180)) /\
  coverageRadiusKmOf NegInf = Fin (6371 * (Rtrigo1.PI / 2 - 10 * Rtrigo1.PI / 180)) /\
  (forall h, (-6371 <= h)%R ->
     (h < - (6371 * (1 - Rtrigo_def.cos (10 * Rtrigo1.PI / 180))))%R ->
     coverageRadiusKmOf (Fin h) = NaN).
Proof.
  unfold coverageRadiusKmOf, centralAngleOf. rewrite elevRad_value. unfold EARTH_RADIUS.
  pose proof cos_elev_bounds as [Hc0 Hc1].
  split; [reflexivity|].
  assert (Hinf : JsNum.acos (Fin 0) = Fin (Rtrigo1.PI / 2)).
  { unfold JsNum.acos. rewrite !Rleb_true by lra. simpl. now rewrite acos_0. }
  assert (Hpinf : (Fin 6371 * JsNum.cos (Fin (10 * Rtrigo1.PI / 180))
                   / (Fin 6371 + PosInf))%js = Fin 0) by reflexivity.
  assert (Hninf : (Fin 6371 * JsNum.cos (Fin (10 * Rtrigo1.PI / 180))
                   / (Fin 6371 + NegInf))%js = Fin 0) by reflexivity.
  split; [rewrite Hpinf, Hinf; reflexivity|].
  split; [rewrite Hninf, Hinf; reflexivity|].
  intros h Hlow Hhigh. simpl JsNum.cos. simpl JsNum.mul at 2. simpl JsNum.add.
  set (c := Rtrigo_def.cos (10 * Rtrigo1.PI / 180)) in *.
  unfold JsNum.div. destruct (Req_dec_T (6371 + h) 0) as [Hz|Hnz].
  - unfold JsNum.Reqb. destruct (Req_dec_T (6371 + h) 0); [|contradiction].
    unfold JsNum.Rsign. rewrite Rltb_false_aux by (intros Hc; nra).
    rewrite Rltb_true by nra. reflexivity.
  - rewrite Reqb_false by exact Hnz.
    assert (Hpos : (0 < / (6371 + h))%R) by (apply Rinv_0_lt_compat; lra).
    assert (Hinv : ((6371 + h) * / (6371 + h) = 1)%R) by (field; lra).
    assert (Hbig : (1 < 6371 * c / (6371 + h))%R) by (unfold Rdiv; nra).
    unfold JsNum.acos.
    assert (Hle : JsNum.Rleb (6371 * c / (6371 + h)) 1 = false).
    { unfold JsNum.Rleb. destruct (Rle_dec _ 1); [lra | reflexivity]. }
    rewrite Hle, andb_false_r. reflexivity.
Qed.

Lemma coverage_radius_off_range_witness : coverageRadiusKmOf (Fin (-6371)) = NaN.
Proof.
  destruct coverage_radius_off_range as (_ & _ & _ & Hlow).
  apply Hlow; [lra|]. pose proof cos_elev_bounds. lra.
Defined.

(* ================================================================== *)
(** * Further properties of the catalog parser *)

Lemma trimStart_whitespace_only a :
  whitespace_only a = true -> JsString.trimStart a = EmptyString.
Proof.
  induction a as [|c a IH]; simpl; [reflexivity|].
  intros H. apply andb_prop in H. destruct H as [Hc Ha]. now rewrite Hc, IH.
Qed.

Lemma trimEnd_whitespace_only b :
  whitespace_only b = true -> JsString.trimEnd b = EmptyString.
Proof.
  induction b as [|c b IH]; simpl; [reflexivity|].
  intros H. apply andb_prop in H. destruct H as [Hc Hb]. now rewrite IH, Hc.
Qed.

Lemma trimStart_prepend a t :
  whitespace_only a = true -> JsString.trimStart (a ++ t) = JsString.trimStart t.
Proof.
  induction a as [|c a IH]; simpl; [reflexivity|].
  intros H. apply andb_prop in H. destruct H as [Hc Ha]. rewrite Hc. now apply IH.
Qed.

Lemma trimEnd_append t b :
  whitespace_only b = true -> JsString.trimEnd (t ++ b) = JsString.trimEnd t.
Proof.
  intros Hb. induction t as [|c t IH]; simpl.
  - now apply trimEnd_whitespace_only.
  - now rewrite IH.
Qed.

Lemma trim_append t b :
  whitespace_only b = true -> JsString.trim (t ++ b) = JsString.trim t.
Proof.
  intros Hb. unfold JsString.trim. induction t as [|c t IH]; simpl.
  - now rewrite (trimStart_whitespace_only b Hb).
  - destruct (JsString.isWhiteSpace c); [exact IH|].
    change (String c (t ++ b)%string) with (String c t ++ b)%string.
    now apply trimEnd_append.
Qed.

(** X14.  White space around a catalog text does not change what the
    parser returns: blank lines, spaces and line ends before the first name
    or after the last element line are ignored. *)
Theorem parseTLEs_ignores_surrounding_whitespace :
  forall a tleText b,
  whitespace_only a = true -> whitespace_only b = true ->
  parseTLEs (a ++ tleText ++ b) = parseTLEs tleText.
Proof.
  intros a tleText b Ha Hb.
  assert (Htrim : JsString.trim (a ++ tleText ++ b) = JsString.trim tleText).
  { unfold JsString.trim at 1. rewrite (trimStart_prepend a _ Ha).
    exact (trim_append tleText b Hb). }
  unfold parseTLEs, tle_lines. now rewrite Htrim.
Qed.

Lemma parseTLEs_ignores_surrounding_whitespace_witness :
  parseTLEs ((NL ++ "  ") ++ sample_catalog ++ (NL ++ NL)) = [sample_record].
Proof.
  rewrite (parseTLEs_ignores_surrounding_whitespace (NL ++ "  ") sample_catalog (NL ++ NL));
    reflexivity.
Defined.

Lemma accept_triplets_length lines :
  (3 * List.length (accept_triplets lines) <= List.length lines)%nat.
Proof.
  induction lines as [| a | a b | a b c rest IH] using triplet_ind; simpl; try lia.
  rewrite length_app. destruct (prefixes_ok b c); simpl; lia.
Qed.

(** X15.  The parser returns at most one record for every three lines of
    the trimmed text; a text of fewer than three lines, the empty text
    included, gives no record. *)
Theorem parseTLEs_needs_three_lines :
  forall tleText,
  (3 * List.length (parseTLEs tleText) <= List.length (tle_lines tleText))%nat /\
  ((List.length (tle_lines tleText) < 3)%nat -> parseTLEs tleText = []).
Proof.
  intros tleText. rewrite parseTLEs_accept.
  pose proof (accept_triplets_length (tle_lines tleText)) as Hacc.
  pose proof (firstn_le_length 30 (accept_triplets (tle_lines tleText))) as H30.
  assert (Hlen : (List.length (firstn 30 (accept_triplets (tle_lines tleText)))
                  <= List.length (accept_triplets (tle_lines tleText)))%nat).
  { rewrite length_firstn. lia. }
  split; [lia|].
  intros Hshort.
  destruct (firstn 30 (accept_triplets (tle_lines tleText))); [reflexivity|].
  simpl in Hlen. lia.
Qed.

Lemma parseTLEs_needs_three_lines_witness :
  parseTLEs (sample_line1 ++ NL ++ sample_line2) = [].
Proof.
  destruct (parseTLEs_needs_three_lines (sample_line1 ++ NL ++ sample_line2))
    as [_ Hshort].
  apply Hshort. vm_compute. lia.
Defined.

Section CatalogNumberRange.

Local Open Scope Z_scope.

Lemma digit_val_nonneg c d : JsString.digit_val c = Some d -> 0 <= d.
Proof.
  unfold JsString.digit_val.
  destruct ((48 <=? Z.of_nat (nat_of_ascii c)) && (Z.of_nat (nat_of_ascii c) <=? 57)) eqn:E1.
  { intros H. injection H as <-. apply andb_prop in E1. lia. }
  destruct ((97 <=? Z.of_nat (nat_of_ascii c)) && (Z.of_nat (nat_of_ascii c) <=? 122)) eqn:E2.
  { intros H. injection H as <-. apply andb_prop in E2. lia. }
  destruct ((65 <=? Z.of_nat (nat_of_ascii c)) && (Z.of_nat (nat_of_ascii c) <=? 90)) eqn:E3.
  { intros H. injection H as <-. apply andb_prop in E3. lia. }
  discriminate.
Qed.

Lemma digits_prefix_bounds r s :
  Forall (fun d => 0 <= d < r) (JsString.digits_prefix r s) /\
  (List.length (JsString.digits_prefix r s) <= String.length s)%nat.
Proof.
  induction s as [|c s [IHf IHl]]; simpl; [split; [constructor | lia]|].
  destruct (JsString.digit_val c) as [d|] eqn:Hd; [|split; [constructor | simpl; lia]].
  destruct (Z.ltb_spec d r); [|split; [constructor | simpl; lia]].
  split; [|simpl; lia].
  constructor; [|exact IHf]. pose proof (digit_val_nonneg c d Hd). lia.
Qed.

Lemma fold_digits_bound r ds :
  0 < r -> Forall (fun d => 0 <= d < r) ds ->
  forall acc, 0 <= acc ->
  0 <= fold_left (fun a d => a * r + d) ds acc
  < (acc + 1) * r ^ Z.of_nat (List.length ds).
Proof.
  intros Hr Hall. induction Hall as [|d ds Hd Hds IH]; intros acc Hacc.
  - simpl. lia.
  - cbn [fold_left List.length]. rewrite Nat2Z.inj_succ, Z.pow_succ_r by lia.
    assert (Hacc' : 0 <= acc * r + d) by nia.
    specialize (IH (acc * r + d) Hacc').
    assert (0 < r ^ Z.of_nat (List.length ds)) by (apply Z.pow_pos_nonneg; lia).
    nia.
Qed.

(** The digits read from a string of at most [k] characters denote a
    number below [radix ^ k]. *)
Lemma digits_value_bound radix s k :
  0 < radix -> (String.length s <= k)%nat ->
  0 <= JsString.digits_value radix (JsString.digits_prefix radix s) < radix ^ Z.of_nat k.
Proof.
  intros Hr Hk. destruct (digits_prefix_bounds radix s) as [Hall Hlen].
  pose proof (fold_digits_bound radix _ Hr Hall 0 ltac:(lia)) as [H0 H1].
  unfold JsString.digits_value. split; [exact H0|].
  eapply Z.lt_le_trans; [exact H1|]. rewrite Z.mul_1_l.
  apply Z.pow_le_mono_r; lia.
Qed.

Lemma trimStart_length s : (String.length (JsString.trimStart s) <= String.length s)%nat.
Proof.
  induction s as [|c s IH]; simpl; [lia|].
  destruct (JsString.isWhiteSpace c); simpl; lia.
Qed.

(** What is read after the sign, from at most [k] characters with
    [k <= 5], stays below [10 ^ k]. *)
Lemma after_sign_bound s1 k sign z :
  (String.length s1 <= k)%nat -> (k <= 5)%nat ->
  (let '(radix, s2) :=
     match s1 with
     | String c (String x r) =>
         if Ascii.eqb c "0"%char && (Ascii.eqb x "x"%char || Ascii.eqb x "X"%char)
         then (16, r) else (10, s1)
     | _ => (10, s1)
     end in
   match JsString.digits_prefix radix s2 with
   | [] => None
   | ds => Some (sign * JsString.digits_value radix ds)
   end) = Some z ->
  exists v, z = sign * v /\ 0 <= v < 10 ^ Z.of_nat k.
Proof.
  intros Hlen Hk.
  assert (Hdec : forall s2, (String.length s2 <= k)%nat ->
            match JsString.digits_prefix 10 s2 with
            | [] => None
            | ds => Some (sign * JsString.digits_value 10 ds)
            end = Some z ->
            exists v, z = sign * v /\ 0 <= v < 10 ^ Z.of_nat k).
  { intros s2 Hs2 H. pose proof (digits_value_bound 10 s2 k ltac:(lia) Hs2) as Hb.
    destruct (JsString.digits_prefix 10 s2); [discriminate|].
    injection H as <-. eauto. }
  destruct s1 as [|c [|x r]]; try (apply Hdec; exact Hlen).
  destruct (Ascii.eqb c "0"%char && (Ascii.eqb x "x"%char || Ascii.eqb x "X"%char));
    [|apply Hdec; exact Hlen].
  intros H. simpl in Hlen.
  pose proof (digits_value_bound 16 r (k - 2) ltac:(lia) ltac:(lia)) as Hb.
  destruct (JsString.digits_prefix 16 r); [discriminate|].
  injection H as <-. eexists. split; [reflexivity|]. split; [lia|].
  eapply Z.lt_le_trans; [apply Hb|].
  destruct k as [|[|[|[|[|[|k]]]]]]; simpl in *; try lia.
Qed.

(** [parseInt] of at most five characters. *)
Lemma parseInt_Z_five s z :
  (String.length s <= 5)%nat -> JsString.parseInt_Z s = Some z -> -9999 <= z <= 99999.
Proof.
  intros Hlen. unfold JsString.parseInt_Z.
  pose proof (trimStart_length s) as Htrim.
  destruct (JsString.trimStart s) as [|c r] eqn:Hs0.
  - simpl. discriminate.
  - simpl in Htrim.
    destruct (Ascii.eqb c "-"%char); [|destruct (Ascii.eqb c "+"%char)]; intros H.
    + destruct (after_sign_bound r 4 (-1) z ltac:(lia) ltac:(lia) H) as (v & -> & Hv).
      simpl in Hv. lia.
    + destruct (after_sign_bound r 4 1 z ltac:(lia) ltac:(lia) H) as (v & -> & Hv).
      simpl in Hv. lia.
    + destruct (after_sign_bound (String c r) 5 1 z ltac:(simpl; lia) ltac:(lia) H)
        as (v & -> & Hv).
      simpl in Hv. lia.
Qed.

Lemma substring_length n m s : (String.length (String.substring n m s) <= m)%nat.
Proof.
  revert n m. induction s as [|c s IH]; intros n m.
  - destruct n, m; simpl; lia.
  - destruct n as [|n]; [destruct m as [|m]; simpl; [lia|]|simpl; apply IH].
    specialize (IH 0%nat m). lia.
Qed.

End CatalogNumberRange.

(** X16.  The catalog number of every record the parser emits is NaN or
    a whole number between -9999 and 99999: it is read from at most five
    characters. *)
Theorem noradId_range :
  forall tleText r,
  In r (parseTLEs tleText) ->
  get "noradId" r = VNum NaN \/
  exists z, (-9999 <= z <= 99999)%Z /\ get "noradId" r = VNum (num_of_Z z).
Proof.
  intros tleText r Hin. rewrite parseTLEs_accept in Hin. apply In_firstn in Hin.
  destruct (In_accept_triplets _ _ Hin) as (k & l1 & l2 & _ & _ & _ & ->).
  unfold tle_record. simpl get. unfold JsString.parseInt.
  destruct (JsString.parseInt_Z (JsString.substring l1 2 7)) as [z|] eqn:Hz; [right | now left].
  exists z. split; [|reflexivity].
  apply (parseInt_Z_five (JsString.substring l1 2 7) z); [|exact Hz].
  unfold JsString.substring. apply (substring_length 2 (7 - 2) l1).
Qed.

Lemma noradId_range_witness :
  get "noradId" sample_record = VNum NaN \/
  exists z, (-9999 <= z <= 99999)%Z /\ get "noradId" sample_record = VNum (num_of_Z z).
Proof.
  apply (noradId_range sample_catalog).
  rewrite parseTLEs_sample. left. reflexivity.
Defined.

Lemma split_nonempty sep s : JsString.split sep s <> [].
Proof.
  destruct s as [|c s]; simpl; [discriminate|].
  destruct (Ascii.eqb c sep); [discriminate|].
  destruct (JsString.split sep s); discriminate.
Qed.

Lemma join_split sep s : join sep (JsString.split sep s) = s.
Proof.
  induction s as [|c s IH]; [reflexivity|]. simpl JsString.split.
  pose proof (split_nonempty sep s) as Hne.
  destruct (Ascii.eqb_spec c sep) as [->|Hc].
  - destruct (JsString.split sep s) as [|hd tl]; [contradiction|].
    change (join sep (EmptyString :: hd :: tl))
      with (String sep (join sep (hd :: tl))).
    now rewrite IH.
  - destruct (JsString.split sep s) as [|hd tl]; [contradiction|].
    destruct tl as [|hd' tl]; simpl in *; now rewrite IH.
Qed.

Lemma split_lines_have_no_separator sep s :
  Forall (fun l => has_char sep l = false) (JsString.split sep s).
Proof.
  induction s as [|c s IH]; simpl.
  - constructor; [reflexivity | constructor].
  - destruct (Ascii.eqb c sep) eqn:Hc.
    + constructor; [reflexivity | exact IH].
    + destruct (JsString.split sep s) as [|hd tl]; simpl.
      * constructor; [simpl; now rewrite Hc | constructor].
      * inversion IH as [|? ? Hhd Htl]; subst.
        constructor; [simpl; now rewrite Hc, Hhd | exact Htl].
Qed.

(** X17.  The lines the parser works on, joined by line feeds, are the
    trimmed text; and the two element lines of every record are lines of
    that text, so neither holds a line feed. *)
Theorem records_hold_whole_lines :
  forall tleText,
  join LF (tle_lines tleText) = JsString.trim tleText /\
  (forall r, In r (parseTLEs tleText) ->
     exists l1 l2,
       get "line1" r = VStr l1 /\ get "line2" r = VStr l2 /\
       In l1 (tle_lines tleText) /\ In l2 (tle_lines tleText) /\
       has_char LF l1 = false /\ has_char LF l2 = false).
Proof.
  intros tleText. split; [apply join_split|].
  intros r Hin. rewrite parseTLEs_accept in Hin. apply In_firstn in Hin.
  destruct (In_accept_triplets _ _ Hin) as (k & l1 & l2 & H1 & H2 & _ & ->).
  apply nth_error_In in H1. apply nth_error_In in H2.
  pose proof (split_lines_have_no_separator LF (JsString.trim tleText)) as Hall.
  rewrite Forall_forall in Hall.
  exists l1, l2. repeat split; auto.
Qed.

Lemma records_hold_whole_lines_witness :
  exists l1 l2,
    get "line1" sample_record = VStr l1 /\ get "line2" sample_record = VStr l2 /\
    In l1 (tle_lines sample_catalog) /\ In l2 (tle_lines sample_catalog) /\
    has_char LF l1 = false /\ has_char LF l2 = false.
Proof.
  destruct (records_hold_whole_lines sample_catalog) as [_ Hrec].
  apply Hrec. rewrite parseTLEs_sample. left. reflexivity.
Defined.

(* ================================================================== *)
(** * Further properties of failures *)

Section FailureLogs.

Context {sat_js : SatelliteJs} {conv : Conversions}.

(** X18.  What the console gets when an element set fails: one error line
    naming the catalog number and the message when a library call throws,
    and nothing at all when the propagation gives no position. *)
Theorem failure_logging :
  forall constellation lat lng alt results sat w,
  match result_of (observe lat lng alt sat w) with
  | inl e =>
      events_of (process_satellite constellation lat lng alt results sat w)
      = [ConsoleError ("NORAD " ++ to_string (get "noradId" sat) ++ ": " ++ message e)]
  | inr None =>
      events_of (process_satellite constellation lat lng alt results sat w) = []
  | inr (Some o) =>
      events_of (process_satellite constellation lat lng alt results sat w)
      = progress_events constellation
          (results ++ [entry_of constellation (get "noradId" sat) o]) o
  end.
Proof.
  intros constellation lat lng alt results sat w.
  rewrite process_satellite_run.
  destruct (observe_effects lat lng alt sat w) as (_ & _ & _ & Hev).
  destruct (observe lat lng alt sat w) as [[[e|[o|]] w1] evs];
    unfold events_of in Hev; simpl in Hev; subst evs; reflexivity.
Qed.

End FailureLogs.

Section FetchFailures.

Variables (constellation group : string).
Hypothesis Hgroup : lookup constellation groups = Some group.

(** A failing refresh, with the console lines it leaves. *)
Lemma get_stale_fetch_fails_trace w :
  stale group w = true ->
  fetch_fails (network w (urlOf group)) = true ->
  getConstellationTLEs constellation w
  = (match lookup (cachePathOf group) (files w) with
     | Some f => inr (parseTLEs (content f))
     | None => inl (no_cache_available group)
     end,
     world_at_fetch group w,
     [ConsoleLog ("Fetching fresh " ++ group ++ " from CelesTrak");
      HttpGet (urlOf group);
      ConsoleError ("Fetch failed for " ++ group ++ ": "
                    ++ fail_message (network w (urlOf group)))]
     ++ match lookup (cachePathOf group) (files w) with
        | Some _ => [ConsoleLog ("Falling back to stale cache for " ++ group)]
        | None => []
        end).
Proof.
  intros Hstale Hfail. unfold getConstellationTLEs. rewrite Hgroup. cbv zeta.
  unfold bind at 1. rewrite isStale_run.
  assert (Hst : match lookup (cachePathOf group) (files w) with
                | None => (inr true, w, [])
                | Some f => (inr (clock w (ticks w) - mtimeMs f >? MIN_REFRESH_MS)%Z,
                             tick w, [])
                end = (@inr exn bool true, world_at_fetch group w, @nil Event)).
  { unfold stale in Hstale. unfold world_at_fetch.
    destruct (lookup (cachePathOf group) (files w)); [now rewrite Hstale | reflexivity]. }
  rewrite Hst. change (negb true) with false. cbv iota.
  pose proof (files_world_at_fetch group w) as Hfiles.
  pose proof (network_world_at_fetch group w) as Hnet.
  set (w1 := world_at_fetch group w) in *.
  unfold try_catch, bind, console_log, console_error, emit, axios_get,
    Fs.existsSync, Fs.readFileSync, Fs.writeFileSync, throw, ret.
  cbv beta. rewrite Hnet.
  destruct (network w (urlOf group)) as [msg|data]; simpl in Hfail;
    [|unfold blank_body in Hfail; rewrite Hfail]; cbv beta iota; rewrite Hfiles;
    destruct (lookup (cachePathOf group) (files w)) eqn:E;
    cbv beta iota; rewrite ?Hfiles, ?E; reflexivity.
Qed.

End FetchFailures.

(** X19.  Every way a fetch can fail is handled alike: in two worlds that
    differ only in how the network fails (one rejection or another, an empty
    or a blank body), the call returns the same result and leaves the same
    files. *)
Theorem fetch_failures_are_uniform :
  forall constellation group w net1 net2,
  lookup constellation groups = Some group ->
  fetch_fails (net1 (urlOf group)) = true ->
  fetch_fails (net2 (urlOf group)) = true ->
  let out1 := getConstellationTLEs constellation (with_network w net1) in
  let out2 := getConstellationTLEs constellation (with_network w net2) in
  result_of out1 = result_of out2 /\
  files (world_of out1) = files (world_of out2) /\
  ticks (world_of out1) = ticks (world_of out2).
Proof.
  intros constellation group w net1 net2 Hgroup Hf1 Hf2 out1 out2.
  assert (Hstale : stale group (with_network w net1) = stale group (with_network w net2))
    by reflexivity.
  destruct (stale group (with_network w net2)) eqn:Hs2.
  - subst out1 out2.
    rewrite (get_stale_fetch_fails_trace constellation group Hgroup
               (with_network w net1) Hstale Hf1).
    rewrite (get_stale_fetch_fails_trace constellation group Hgroup
               (with_network w net2) Hs2 Hf2).
    unfold result_of, world_of, world_at_fetch. simpl.
    destruct (lookup (cachePathOf group) (files w)); repeat split; reflexivity.
  - destruct (stale_false_inv group _ Hs2) as (f & Hf & Hage).
    subst out1 out2.
    rewrite (get_fresh constellation group Hgroup (with_network w net1) f Hf Hage).
    rewrite (get_fresh constellation group Hgroup (with_network w net2) f Hf Hage).
    repeat split; reflexivity.
Qed.

Lemma fetch_failures_are_uniform_witness :
  let w := sample_world (sample_cache_file 0) 9000000 (HttpOk sample_catalog) in
  result_of (getConstellationTLEs "starlink"
               (with_network w (fun _ => HttpError "Request failed with status code 503")))
  = result_of (getConstellationTLEs "starlink" (with_network w (fun _ => HttpOk " "))).
Proof.
  intros w.
  destruct (fetch_failures_are_uniform "starlink" "starlink" w
              (fun _ => HttpError "Request failed with status code 503")
              (fun _ => HttpOk " ") eq_refl eq_refl eq_refl) as (Hres & _ & _).
  exact Hres.
Defined.

(** X20.  A failing refresh is visible on the console: the call logs the
    attempt, requests the URL, logs the failure with the message of the
    rejection (or "Empty TLE response" for a blank body), and, when it serves
    the old file, logs the fallback. *)
Theorem failed_refresh_trace :
  forall constellation group w,
  lookup constellation groups = Some group ->
  stale group w = true ->
  fetch_fails (network w (urlOf group)) = true ->
  events_of (getConstellationTLEs constellation w)
  = [ConsoleLog ("Fetching fresh " ++ group ++ " from CelesTrak");
     HttpGet (urlOf group);
     ConsoleError ("Fetch failed for " ++ group ++ ": "
                   ++ fail_message (network w (urlOf group)))]
    ++ match lookup (cachePathOf group) (files w) with
       | Some _ => [ConsoleLog ("Falling back to stale cache for " ++ group)]
       | None => []
       end.
Proof.
  intros constellation group w Hgroup Hstale Hfail.
  now rewrite (get_stale_fetch_fails_trace constellation group Hgroup w Hstale Hfail).
Qed.

Lemma failed_refresh_trace_witness :
  events_of (getConstellationTLEs "starlink"
               (sample_world (sample_cache_file 0) 9000000 (HttpOk "")))
  = [ConsoleLog "Fetching fresh starlink from CelesTrak";
     HttpGet "https://celestrak.org/NORAD/elements/gp.php?GROUP=STARLINK&FORMAT=TLE";
     ConsoleError "Fetch failed for starlink: Empty TLE response";
     ConsoleLog "Falling back to stale cache for starlink"].
Proof.
  exact (failed_refresh_trace "starlink" "starlink"
           (sample_world (sample_cache_file 0) 9000000 (HttpOk ""))
           eq_refl eq_refl eq_refl).
Defined.
